(** * Mini-DBMS storage engine: StorageManager, BufferManager and BPlusTree

    Shallow embedding of [include/StorageEngine.hpp].

    - C++ [int] values are modelled as [Z].  The two [int] computations
      that can leave the [int] range, [nextPageID++] and
      [pageID * PAGE_SIZE], are computed with their 32-bit two's-complement
      wrap-around ([wrap32]); key counts, loop indices and frame indices
      stay far inside the range.
    - A page is the 4096-byte buffer [char data[PAGE_SIZE]].  The only code
      that reads or writes page bytes is the [BPlusNode] overlay,
      [memset(p, 0, PAGE_SIZE)] and whole-page disk transfers, so a page is
      represented by its [BPlusNode] view; the all-zero page is
      [zero_node].
    - [fetchPage] returns a pointer into [pool[frameIdx].data]; the model
      returns the frame index, and every access through a node pointer
      reads or writes that frame, so aliasing of frames across later
      fetches is modelled as in the source.
    - The [fstream] is its file (the page images written, by byte offset,
      and the file length) and its error state [failbit].  A stream whose
      [failbit] is set does nothing on [seekg], [read], [seekp], [write]
      and [flush] ([seekg] clears only [eofbit]), and nothing clears
      [failbit] again.  A read that finds fewer than [PAGE_SIZE] bytes at
      its offset sets [eofbit] and [failbit]; as the file starts empty and
      only ever receives whole pages at multiples of [PAGE_SIZE], such a
      read finds no byte at all and leaves the buffer unchanged.
    - [findLeaf] is recursive on page ids; it gets a fuel argument and the
      monad fails only when the fuel runs out. *)

From stdpp Require Import base gmap list.
From Stdlib Require Import ZArith Lia Sorting.Sorted Sorting.Permutation.

Open Scope Z_scope.

(** ** Global configuration *)

Definition PAGE_SIZE : Z := 4096.
Definition BUFFER_CAPACITY : Z := 3.
Definition MAX_KEYS : Z := 3.

(** ** 32-bit [int] arithmetic *)

Definition INT_MIN : Z := - 2 ^ 31.
Definition INT_MAX : Z := 2 ^ 31 - 1.

(** The [int] value of an arithmetic result: two's-complement
    wrap-around. *)
Definition wrap32 (z : Z) : Z := (z + 2 ^ 31) mod 2 ^ 32 - 2 ^ 31.

(** ** Node layout ([struct BPlusNode]) *)

Record BPlusNode := mkNode {
  isLeaf : bool;
  numKeys : Z;
  parentPage : Z;
  keys : list Z;        (* int keys[MAX_KEYS] *)
  children : list Z;    (* int children[MAX_KEYS + 1] *)
  nextLeaf : Z }.

(** The page image after [memset(p, 0, PAGE_SIZE)]. *)
Definition zero_node : BPlusNode :=
  mkNode false 0 0 [0; 0; 0] [0; 0; 0; 0] 0.

Definition set_isLeaf (b : bool) (n : BPlusNode) : BPlusNode :=
  mkNode b (numKeys n) (parentPage n) (keys n) (children n) (nextLeaf n).
Definition set_numKeys (k : Z) (n : BPlusNode) : BPlusNode :=
  mkNode (isLeaf n) k (parentPage n) (keys n) (children n) (nextLeaf n).
Definition set_parentPage (p : Z) (n : BPlusNode) : BPlusNode :=
  mkNode (isLeaf n) (numKeys n) p (keys n) (children n) (nextLeaf n).
(** [node->keys[i] = v] *)
Definition set_key (i : nat) (v : Z) (n : BPlusNode) : BPlusNode :=
  mkNode (isLeaf n) (numKeys n) (parentPage n) (<[i := v]> (keys n))
         (children n) (nextLeaf n).
(** [node->children[i] = v] *)
Definition set_child (i : nat) (v : Z) (n : BPlusNode) : BPlusNode :=
  mkNode (isLeaf n) (numKeys n) (parentPage n) (keys n)
         (<[i := v]> (children n)) (nextLeaf n).

(** [node->keys[i]] *)
Definition key_at (n : BPlusNode) (i : nat) : Z := nth i (keys n) 0.

(** ** Frames ([struct Frame]) *)

Record Frame := mkFrame {
  pageID : Z;
  dirty : bool;
  data : BPlusNode }.

(** A value-initialised frame of [vector<Frame> pool(BUFFER_CAPACITY)]. *)
Definition empty_frame : Frame := mkFrame (-1) false zero_node.

Definition set_frame_data (d : BPlusNode) (f : Frame) : Frame :=
  mkFrame (pageID f) (dirty f) d.
Definition set_frame_dirty (b : bool) (f : Frame) : Frame :=
  mkFrame (pageID f) b (data f).
Definition set_frame_pageID (p : Z) (f : Frame) : Frame :=
  mkFrame p (dirty f) (data f).

(** ** Engine state

    The StorageManager's stream (file contents, file length, fail state),
    the BufferManager's pool, page table, LRU list and id counter, and the
    BPlusTree's root page, together with the trace of the console lines
    that report disk writes and evictions. *)

Inductive Event :=
  | EvDiskWrite (pid : Z)    (* "[DISK] Writing Page pid ..." *)
  | EvEvict (pid : Z).       (* "[EVICT] Buffer full. Kicking out Page pid" *)

Record Engine := mkEngine {
  dbFile : gmap Z BPlusNode;  (* the page images in the file, by byte offset *)
  fileSize : Z;               (* the file length in bytes *)
  failbit : bool;             (* dbFile.fail() *)
  pool : list Frame;
  pageTable : gmap Z Z;
  lru : list Z;               (* front is the most recently used frame *)
  nextPageID : Z;
  rootPage : Z;
  events : list Event }.

Definition set_dbFile (d : gmap Z BPlusNode) (s : Engine) : Engine :=
  mkEngine d (fileSize s) (failbit s) (pool s) (pageTable s) (lru s) (nextPageID s) (rootPage s) (events s).
Definition set_fileSize (z : Z) (s : Engine) : Engine :=
  mkEngine (dbFile s) z (failbit s) (pool s) (pageTable s) (lru s) (nextPageID s) (rootPage s) (events s).
Definition set_failbit (b : bool) (s : Engine) : Engine :=
  mkEngine (dbFile s) (fileSize s) b (pool s) (pageTable s) (lru s) (nextPageID s) (rootPage s) (events s).
Definition set_pool (p : list Frame) (s : Engine) : Engine :=
  mkEngine (dbFile s) (fileSize s) (failbit s) p (pageTable s) (lru s) (nextPageID s) (rootPage s) (events s).
Definition set_pageTable (t : gmap Z Z) (s : Engine) : Engine :=
  mkEngine (dbFile s) (fileSize s) (failbit s) (pool s) t (lru s) (nextPageID s) (rootPage s) (events s).
Definition set_lru (l : list Z) (s : Engine) : Engine :=
  mkEngine (dbFile s) (fileSize s) (failbit s) (pool s) (pageTable s) l (nextPageID s) (rootPage s) (events s).
Definition set_nextPageID (n : Z) (s : Engine) : Engine :=
  mkEngine (dbFile s) (fileSize s) (failbit s) (pool s) (pageTable s) (lru s) n (rootPage s) (events s).
Definition set_rootPage (r : Z) (s : Engine) : Engine :=
  mkEngine (dbFile s) (fileSize s) (failbit s) (pool s) (pageTable s) (lru s) (nextPageID s) r (events s).
Definition add_event (e : Event) (s : Engine) : Engine :=
  mkEngine (dbFile s) (fileSize s) (failbit s) (pool s) (pageTable s) (lru s) (nextPageID s) (rootPage s)
           (events s ++ [e]).

(** [pool[i]] *)
Definition frame (s : Engine) (i : Z) : Frame :=
  default empty_frame (pool s !! Z.to_nat i).

(** [pool[i]] updated in place. *)
Definition upd_frame (i : Z) (g : Frame -> Frame) (s : Engine) : Engine :=
  set_pool (alter g (Z.to_nat i) (pool s)) s.

(** The node a [BPlusNode*] into frame [i] points to. *)
Definition node_at (s : Engine) (i : Z) : BPlusNode := data (frame s i).

(** ** The state monad *)

Definition M (A : Type) : Type := Engine -> option (A * Engine).

Definition retM {A} (a : A) : M A := fun s => Some (a, s).
Definition bindM {A B} (m : M A) (k : A -> M B) : M B :=
  fun s => match m s with Some (a, s') => k a s' | None => None end.
Definition get : M Engine := fun s => Some (s, s).
Definition modify (g : Engine -> Engine) : M unit := fun s => Some (tt, g s).
Definition out_of_fuel {A} : M A := fun _ => None.

Global Instance M_ret : MRet M := fun A a => retM a.
Global Instance M_bind : MBind M := fun A B k m => bindM m k.

(** [write_node i g]: a store through a node pointer into frame [i]. *)
Definition write_node (i : Z) (g : BPlusNode -> BPlusNode) : M unit :=
  modify (upd_frame i (fun f => set_frame_data (g (data f)) f)).

(** [for (i = 0; i < n; i++) body(i)] *)
Fixpoint for_ (l : list nat) (body : nat -> M unit) : M unit :=
  match l with
  | [] => retM tt
  | i :: l' => body i ;; for_ l' body
  end.

(** ** StorageManager *)

(** The byte offset [pageID * PAGE_SIZE], an [int] product. *)
Definition page_offset (pid : Z) : Z := wrap32 (pid * PAGE_SIZE).

(** [dbFile.seekp(off, ios::beg); dbFile.write(data, PAGE_SIZE);
    dbFile.flush();] on the stream.  On a failed stream all three do
    nothing; a negative offset makes [seekp] fail; otherwise the page is
    stored at [off] and the file grows to cover it (a gap reads as
    zeros). *)
Definition disk_write (pid : Z) (d : BPlusNode) (s : Engine) : Engine :=
  let off := page_offset pid in
  if failbit s then s
  else if off <? 0 then set_failbit true s
  else set_fileSize (Z.max (fileSize s) (off + PAGE_SIZE)) (set_dbFile (<[off := d]> (dbFile s)) s).

Definition writeDisk (pid : Z) (d : BPlusNode) : M unit :=
  modify (add_event (EvDiskWrite pid)) ;;     (* cout << "[DISK] Writing Page " ... *)
  modify (disk_write pid d).

(** [dbFile.seekg(off, ios::beg); dbFile.read(pool[idx].data, PAGE_SIZE);].
    On a failed stream both do nothing; a negative offset makes [seekg]
    fail; a page that lies inside the file is copied into the frame (bytes
    never written read as zeros); a read at or past the end of the file
    gets no byte, sets [eofbit | failbit] and leaves the buffer as it
    was. *)
Definition disk_read (pid idx : Z) (s : Engine) : Engine :=
  let off := page_offset pid in
  if failbit s then s
  else if off <? 0 then set_failbit true s
  else if off + PAGE_SIZE <=? fileSize s
  then upd_frame idx (set_frame_data (default zero_node (dbFile s !! off))) s
  else set_failbit true s.

Definition readDisk (pid : Z) (idx : Z) : M unit :=
  modify (disk_read pid idx).

(** ** BufferManager *)

(** [lru.remove(idx); lru.push_front(idx);] *)
Definition touch (idx : Z) : M unit :=
  modify (fun s => set_lru (idx :: List.filter (fun x => negb (x =? idx)) (lru s)) s).

Definition evict : M Z :=
  s ← get;
  if Z.of_nat (length (lru s)) <? BUFFER_CAPACITY
  then retM (Z.of_nat (length (lru s)))
  else
    let idx := List.last (lru s) 0 in
    let f := frame s idx in
    modify (add_event (EvEvict (pageID f))) ;;
    (if dirty f then writeDisk (pageID f) (data f) else retM tt) ;;
    modify (fun s => set_pageTable (delete (pageID f) (pageTable s)) s) ;;
    modify (fun s => set_lru (removelast (lru s)) s) ;;
    retM idx.

Definition fetchPage (pid : Z) : M Z :=
  s ← get;
  match pageTable s !! pid with
  | Some idx => touch idx ;; retM idx
  | None =>
      frameIdx ← evict;
      readDisk pid frameIdx ;;
      modify (upd_frame frameIdx (set_frame_pageID pid)) ;;
      modify (upd_frame frameIdx (set_frame_dirty false)) ;;
      modify (fun s => set_pageTable (<[pid := frameIdx]> (pageTable s)) s) ;;
      touch frameIdx ;;
      retM frameIdx
  end.

Definition markDirty (pid : Z) : M unit :=
  s ← get;
  match pageTable s !! pid with
  | Some idx => modify (upd_frame idx (set_frame_dirty true))
  | None => retM tt
  end.

Definition allocatePage : M Z :=
  s ← get;
  let pid := nextPageID s in
  modify (set_nextPageID (wrap32 (pid + 1))) ;;   (* int pid = nextPageID++; *)
  p ← fetchPage pid;
  write_node p (fun _ => zero_node) ;;     (* memset(p, 0, PAGE_SIZE) *)
  markDirty pid ;;
  retM pid.

(** [StorageManager sm(...)] opens the file truncated (or creates it): an
    empty file and a good stream; [BufferManager bm(sm)] starts with the
    value-initialised pool, no page resident and [nextPageID = 0]. *)
Definition init_engine : Engine :=
  mkEngine ∅ 0 false (repeat empty_frame 3) ∅ [] 0 0 [].
(** ** BPlusTree *)

(** [std::sort] on the four temporary keys (insertion sort; on integers
    every sort yields the same list). *)
Fixpoint insert_sorted (x : Z) (l : list Z) : list Z :=
  match l with
  | [] => [x]
  | y :: l' => if x <=? y then x :: y :: l' else y :: insert_sorted x l'
  end.

Fixpoint sort_keys (l : list Z) : list Z :=
  match l with
  | [] => []
  | x :: l' => insert_sorted x (sort_keys l')
  end.

(** [while (i < node->numKeys && key >= node->keys[i]) i++;] starting at
    the given [i], scanning the [keys] array. *)
Fixpoint child_index_from (ks : list Z) (i numK key : Z) : Z :=
  match ks with
  | [] => i
  | k :: ks' =>
      if (i <? numK) && (key >=? k) then child_index_from ks' (i + 1) numK key
      else i
  end.

Fixpoint findLeaf (fuel : nat) (currPage key : Z) : M Z :=
  match fuel with
  | O => out_of_fuel
  | S fuel' =>
      f ← fetchPage currPage;
      s ← get;
      let node := node_at s f in
      if isLeaf node then retM currPage
      else
        let i := child_index_from (keys node) 0 (numKeys node) key in
        findLeaf fuel' (nth (Z.to_nat i) (children node) 0) key
  end.

(** The shifting loop of [insertIntoLeaf]:
    [int i = numKeys - 1; while (i >= 0 && keys[i] > key)
       { keys[i + 1] = keys[i]; i--; }].
    [shift_loop j ks key] runs it from [i = j - 1]; it returns the keys and
    the final [i + 1]. *)
Fixpoint shift_loop (j : nat) (ks : list Z) (key : Z) : list Z * nat :=
  match j with
  | O => (ks, O)
  | S i =>
      if nth i ks 0 >? key then shift_loop i (<[S i := nth i ks 0]> ks) key
      else (ks, S i)
  end.

Definition insertIntoParent (left key right : Z) : M unit :=
  s ← get;
  if left =? rootPage s then
    newRoot ← allocatePage;
    r ← fetchPage newRoot;
    write_node r (set_isLeaf false) ;;
    write_node r (set_key 0 key) ;;
    write_node r (set_child 0 left) ;;
    write_node r (set_child 1 right) ;;
    write_node r (set_numKeys 1) ;;
    modify (set_rootPage newRoot)
  else retM tt.

Definition splitLeaf (oldPageID key : Z) : M unit :=
  newPageID ← allocatePage;
  oldNode ← fetchPage oldPageID;
  newNode ← fetchPage newPageID;
  s ← get;
  let tempKeys := sort_keys (firstn (Z.to_nat MAX_KEYS) (keys (node_at s oldNode)) ++ [key]) in
  write_node newNode (set_isLeaf true) ;;
  let mid := (MAX_KEYS + 1) / 2 in
  write_node oldNode (set_numKeys mid) ;;
  write_node newNode (set_numKeys ((MAX_KEYS + 1) - mid)) ;;
  s ← get;
  for_ (seq 0 (Z.to_nat (numKeys (node_at s oldNode))))
       (fun i => write_node oldNode (set_key i (nth i tempKeys 0))) ;;
  s ← get;
  for_ (seq 0 (Z.to_nat (numKeys (node_at s newNode))))
       (fun i => write_node newNode (set_key i (nth (Z.to_nat mid + i) tempKeys 0))) ;;
  markDirty oldPageID ;;
  markDirty newPageID ;;
  s ← get;
  insertIntoParent oldPageID (key_at (node_at s newNode) 0) newPageID.

Definition insertIntoLeaf (pageID key : Z) : M unit :=
  f ← fetchPage pageID;
  s ← get;
  let node := node_at s f in
  if numKeys node <? MAX_KEYS then
    let '(ks, pos) := shift_loop (Z.to_nat (numKeys node)) (keys node) key in
    write_node f (fun n => mkNode (isLeaf n) (numKeys n) (parentPage n) ks
                                  (children n) (nextLeaf n)) ;;
    write_node f (set_key pos key) ;;
    write_node f (fun n => set_numKeys (numKeys n + 1) n) ;;
    markDirty pageID
  else splitLeaf pageID key.

(** Recursion bound of [findLeaf]. *)
Definition findLeaf_fuel : nat := 64.

Definition insert (key : Z) : M unit :=
  s ← get;
  leafPage ← findLeaf findLeaf_fuel (rootPage s) key;
  insertIntoLeaf leafPage key.

(** The constructor [BPlusTree(BufferManager& b)]. *)
Definition BPlusTree_init : M unit :=
  r ← allocatePage;
  modify (set_rootPage r) ;;
  root ← fetchPage r;
  write_node root (set_isLeaf true) ;;
  write_node root (set_numKeys 0) ;;
  write_node root (set_parentPage (-1)).

Fixpoint insert_all (ks : list Z) : M unit :=
  match ks with
  | [] => retM tt
  | k :: ks' => insert k ;; insert_all ks'
  end.

(** Running a computation from a state. *)
Definition exec (m : M unit) (s : Engine) : option Engine :=
  match m s with Some (_, s') => Some s' | None => None end.

(** A fresh tree over a fresh buffer manager and an empty data file. *)
Definition fresh_tree : option Engine := exec BPlusTree_init init_engine.

(** The tree after a sequence of inserts on a fresh tree. *)
Definition tree_after (ks : list Z) : option Engine :=
  match fresh_tree with
  | Some s => exec (insert_all ks) s
  | None => None
  end.

(** The page image [readDisk] would load for page [p]: defined when the
    stream is good and the page lies inside the file. *)
Definition disk_image (s : Engine) (p : Z) : option BPlusNode :=
  let off := page_offset p in
  if negb (failbit s) && (0 <=? off) && (off + PAGE_SIZE <=? fileSize s)
  then Some (default zero_node (dbFile s !! off))
  else None.

(** The content of page [p]: its frame when resident, else the image a
    read of the page would load into a frame. *)
Definition view (s : Engine) (p : Z) : option BPlusNode :=
  match pageTable s !! p with
  | Some i => Some (node_at s i)
  | None => disk_image s p
  end.

(** The keys a node holds: the first [numKeys] slots of [keys]. *)
Definition node_keys (n : BPlusNode) : list Z := firstn (Z.to_nat (numKeys n)) (keys n).

Definition evictions (s : Engine) : nat :=
  length (List.filter (fun e => match e with EvEvict _ => true | _ => false end) (events s)).

(** ** Cache invariants *)

(** Structural coherence of the buffer manager: the LRU list holds the
    occupied frame indices [0 .. n-1] without repetition, and the page
    table maps exactly the page ids of the occupied frames to their
    frames. *)
Record Coh (s : Engine) : Prop := {
  coh_pool : length (pool s) = 3%nat;
  coh_nodup : List.NoDup (lru s);
  coh_len : (length (lru s) <= 3)%nat;
  coh_range : forall i, In i (lru s) <-> 0 <= i < Z.of_nat (length (lru s));
  coh_table : forall p i, pageTable s !! p = Some i <-> In i (lru s) /\ pageID (frame s i) = p;
  coh_size : size (pageTable s) = length (lru s) }.

(** A clean occupied frame holds the disk image of its page. *)
Definition Cons (s : Engine) : Prop :=
  forall i, In i (lru s) -> dirty (frame s i) = false ->
  disk_image s (pageID (frame s i)) = Some (data (frame s i)).

(** ** Basic facts about the state *)

Ltac munfold :=
  unfold mbind, M_bind, mret, M_ret, bindM, retM, get, modify, write_node,
    out_of_fuel in *.

Definition touch_list (idx : Z) (l : list Z) : list Z :=
  idx :: List.filter (fun x => negb (x =? idx)) l.

(** The state after a miss has obtained frame [idx]. *)
Definition install (pid idx : Z) (s : Engine) : Engine :=
  set_lru (touch_list idx (lru s))
    (set_pageTable (<[pid := idx]> (pageTable s))
      (upd_frame idx (set_frame_dirty false)
        (upd_frame idx (set_frame_pageID pid) (disk_read pid idx s)))).

(** The state after evicting the victim frame [idx] holding page [v]. *)
Definition evicted (s : Engine) : Engine :=
  let idx := List.last (lru s) 0 in
  let f := frame s idx in
  let s1 := add_event (EvEvict (pageID f)) s in
  let s2 := if dirty f then disk_write (pageID f) (data f) (add_event (EvDiskWrite (pageID f)) s1)
            else s1 in
  set_lru (removelast (lru s2)) (set_pageTable (delete (pageID f) (pageTable s2)) s2).

(** The state of a miss after [evict] has produced the free frame [idx]. *)
Record Coh_free (s : Engine) (idx : Z) : Prop := {
  cf_pool : length (pool s) = 3%nat;
  cf_nodup : List.NoDup (idx :: lru s);
  cf_len : (length (lru s) < 3)%nat;
  cf_range : forall i, In i (idx :: lru s) <-> 0 <= i < Z.of_nat (length (lru s)) + 1;
  cf_table : forall p i, pageTable s !! p = Some i <-> In i (lru s) /\ pageID (frame s i) = p;
  cf_size : size (pageTable s) = length (lru s) }.

(** [markDirty] as a state function. *)
Definition mark_dirty_state (pid : Z) (s : Engine) : Engine :=
  match pageTable s !! pid with
  | Some i => upd_frame i (set_frame_dirty true) s
  | None => s
  end.

(** Frames outside the LRU list are still the empty frames of the
    constructor ([pageID = -1]). *)
Definition Unused (s : Engine) : Prop :=
  forall i, 0 <= i < 3 -> ~ In i (lru s) -> frame s i = empty_frame.

Inductive BMOp :=
  | OpFetch (pid : Z)
  | OpAllocate
  | OpMarkDirty (pid : Z).

Definition run_op (o : BMOp) : M unit :=
  match o with
  | OpFetch pid => _ ← fetchPage pid; mret tt
  | OpAllocate => _ ← allocatePage; mret tt
  | OpMarkDirty pid => markDirty pid
  end.

Fixpoint run_ops (os : list BMOp) : M unit :=
  match os with
  | [] => mret tt
  | o :: os' => run_op o ;; run_ops os'
  end.


Definition demo_ops : list BMOp :=
  [OpAllocate; OpAllocate; OpFetch 7; OpMarkDirty 0; OpAllocate; OpAllocate;
   OpFetch 0; OpMarkDirty 3; OpFetch 1].

Definition demo_state : Engine :=
  match exec (run_ops demo_ops) init_engine with Some s => s | None => init_engine end.

(** Pages reachable from page [p] through the first [numKeys + 1] children
    of internal nodes, down to [fuel] levels. *)
Fixpoint reach (fuel : nat) (s : Engine) (p : Z) : list Z :=
  match fuel with
  | O => []
  | S f =>
      p :: match view s p with
           | Some n =>
               if isLeaf n then []
               else flat_map (reach f s) (firstn (S (Z.to_nat (numKeys n))) (children n))
           | None => []
           end
  end.

(** [Cons] except possibly for frame [i]. *)
Definition Cons_but (s : Engine) (i : Z) : Prop :=
  forall j, In j (lru s) -> j <> i -> dirty (frame s j) = false ->
  disk_image s (pageID (frame s j)) = Some (data (frame s j)).

(** The node after the in-place insertion of [insertIntoLeaf]. *)
Definition leaf_insert (n : BPlusNode) (key : Z) : BPlusNode :=
  let '(ks, pos) := shift_loop (Z.to_nat (numKeys n)) (keys n) key in
  set_numKeys (numKeys n + 1)
    (set_key pos key (mkNode (isLeaf n) (numKeys n) (parentPage n) ks (children n) (nextLeaf n))).

(** The routing rule in the words of the description: the first index [i]
    with [key < keys[i]], or the number of keys when there is none. *)
Fixpoint first_index_gt (ks : list Z) (key : Z) : nat :=
  match ks with
  | [] => O
  | k :: ks' => if key <? k then O else S (first_index_gt ks' key)
  end.

(** Trees built by concrete insert sequences. *)
Definition tree_of (ks : list Z) : Engine := default init_engine (tree_after ks).

(** ** The nodes written by the tree code *)

(** The sorted [tempKeys] of [splitLeaf] for the old leaf [n]. *)
Definition split_temp (n : BPlusNode) (key : Z) : list Z :=
  sort_keys (firstn (Z.to_nat MAX_KEYS) (keys n) ++ [key]).

(** The old leaf after [splitLeaf]: [numKeys = mid] and the first [mid]
    sorted keys ([mid = 2]). *)
Definition split_old (n : BPlusNode) (t : list Z) : BPlusNode :=
  set_key 1 (nth 1 t 0) (set_key 0 (nth 0 t 0) (set_numKeys 2 n)).

(** The new leaf after [splitLeaf], from the bytes [m] of its frame:
    [isLeaf = true], [numKeys = 2] and the last two sorted keys. *)
Definition split_new (m : BPlusNode) (t : list Z) : BPlusNode :=
  set_key 1 (nth 3 t 0) (set_key 0 (nth 2 t 0) (set_numKeys 2 (set_isLeaf true m))).

(** The new root of [insertIntoParent], written over the zero fill. *)
Definition new_root (left key right : Z) : BPlusNode :=
  set_numKeys 1 (set_child 1 right (set_child 0 left (set_key 0 key (set_isLeaf false zero_node)))).

(** The root made by the first split, over the leaves 0 and 1. *)
Definition root_node (k : Z) : BPlusNode := new_root 0 k 1.

(** ** Tree invariants *)

(** The arrays of a node have their C sizes, and a leaf holds at most
    [MAX_KEYS] keys in non-decreasing order. *)
Definition good_node (m : BPlusNode) : Prop :=
  length (keys m) = 3%nat /\ length (children m) = 4%nat /\
  (isLeaf m = true -> 0 <= numKeys m <= MAX_KEYS /\ Sorted Z.le (node_keys m)).

(** The [parentPage] and [nextLeaf] fields of a node. *)
Definition links (m : BPlusNode) : Z * Z := (parentPage m, nextLeaf m).

(** Every frame keeps its [parentPage] and [nextLeaf] from [s] to [s'],
    or holds the zero fill [0] in both. *)
Definition keeps_links (s s' : Engine) : Prop :=
  forall i, 0 <= i < 3 -> links (node_at s' i) = links (node_at s i) \/ links (node_at s' i) = (0, 0).

(** The state of the engine under the tree: a coherent cache, the stream
    failed (by the first read of the constructor) with an empty file, and
    well-formed bytes in every frame. *)
Record GInv (s : Engine) : Prop := {
  gi_coh : Coh s;
  gi_fail : failbit s = true;
  gi_file : dbFile s = ∅;
  gi_size : fileSize s = 0;
  gi_good : forall i, 0 <= i < 3 -> good_node (node_at s i);
  gi_links : forall i, 0 <= i < 3 ->
    (parentPage (node_at s i) = -1 \/ parentPage (node_at s i) = 0) /\ nextLeaf (node_at s i) = 0 }.

(** The two shapes of the tree: a single leaf root on page 0 (one page
    allocated, one frame used), or the internal root on page 2 over the
    pages 0 and 1, resident in its frame, with every other frame holding
    leaf bytes. *)
Definition shape (s : Engine) : Prop :=
  (rootPage s = 0 /\ nextPageID s = 1 /\ lru s = [0] /\ pageTable s !! 0 = Some 0 /\
   isLeaf (node_at s 0) = true) \/
  (rootPage s = 2 /\ 3 <= nextPageID s /\
   exists r k, pageTable s !! 2 = Some r /\ node_at s r = root_node k /\
     forall i, 0 <= i < 3 -> i <> r -> isLeaf (node_at s i) = true).

Record RInv (s : Engine) : Prop := {
  ri_g : GInv s;
  ri_pages : forall p i, pageTable s !! p = Some i -> 0 <= p < nextPageID s;
  ri_shape : shape s }.

(** Two states have pools of the same length. *)
Definition pool_len_eq (s' s : Engine) : Prop := length (pool s') = length (pool s).

(** The file and the fail state of the stream. *)
Definition stream (s : Engine) : gmap Z BPlusNode * Z * bool := (dbFile s, fileSize s, failbit s).

Lemma frame_upd_eq s i g :
  0 <= i -> (Z.to_nat i < length (pool s))%nat ->
  frame (upd_frame i g s) i = g (frame s i).
Proof.
  intros Hi Hlt. unfold frame, upd_frame, set_pool; simpl.
  rewrite list_lookup_alter_eq.
  destruct (lookup_lt_is_Some_2 (pool s) (Z.to_nat i) Hlt) as [f Hf].
  rewrite Hf. reflexivity.
Qed.

Lemma frame_upd_ne s i j g :
  0 <= i -> 0 <= j -> i <> j -> frame (upd_frame i g s) j = frame s j.
Proof.
  intros Hi Hj Hne. unfold frame, upd_frame, set_pool; simpl.
  rewrite list_lookup_alter_ne; [reflexivity | lia].
Qed.

Lemma pool_length_upd s i g : length (pool (upd_frame i g s)) = length (pool s).
Proof. unfold upd_frame, set_pool; simpl. apply length_alter. Qed.


Arguments touch_list : simpl never.

Lemma filter_notin (l : list Z) x :
  ~ In x l -> List.filter (fun y => negb (y =? x)) l = l.
Proof.
  induction l as [|y l IH]; intros Hn; simpl; [done|].
  destruct (Z.eqb_spec y x) as [->|Hne]; simpl.
  - exfalso. apply Hn. now left.
  - f_equal. apply IH. intros H. apply Hn. now right.
Qed.

Lemma touch_list_notin (l : list Z) x : ~ In x l -> touch_list x l = x :: l.
Proof. intros H. unfold touch_list. now rewrite filter_notin. Qed.

Lemma touch_list_perm (l : list Z) x :
  List.NoDup l -> In x l -> Permutation (touch_list x l) l.
Proof.
  induction l as [|y l IH]; intros Hnd Hin; [done|].
  inversion Hnd as [|? ? Hy Hnd']; subst.
  unfold touch_list; simpl.
  destruct (Z.eqb_spec y x) as [->|Hne]; simpl.
  - rewrite filter_notin by assumption. reflexivity.
  - destruct Hin as [->|Hin]; [congruence|].
    specialize (IH Hnd' Hin). unfold touch_list in IH.
    transitivity (y :: x :: List.filter (fun z => negb (z =? x)) l).
    + apply perm_swap.
    + now apply perm_skip.
Qed.

(** ** Closed forms of the buffer-manager operations *)



Lemma fetchPage_hit s pid idx :
  pageTable s !! pid = Some idx ->
  fetchPage pid s = Some (idx, set_lru (touch_list idx (lru s)) s).
Proof. intros H. unfold fetchPage, touch. munfold. rewrite H. reflexivity. Qed.

Lemma fetchPage_miss s pid :
  pageTable s !! pid = None ->
  fetchPage pid s =
    match evict s with Some (idx, s1) => Some (idx, install pid idx s1) | None => None end.
Proof.
  intros H. unfold fetchPage, touch, readDisk. munfold. rewrite H.
  destruct (evict s) as [[idx s1]|]; [|reflexivity].
  unfold install, disk_read.
  destruct (failbit s1); [reflexivity|].
  destruct (page_offset pid <? 0); [reflexivity|].
  destruct (page_offset pid + PAGE_SIZE <=? fileSize s1); reflexivity.
Qed.

Lemma evict_notfull s :
  (length (lru s) < 3)%nat -> evict s = Some (Z.of_nat (length (lru s)), s).
Proof.
  intros H. unfold evict. munfold.
  replace (Z.of_nat (length (lru s)) <? BUFFER_CAPACITY) with true
    by (symmetry; apply Z.ltb_lt; unfold BUFFER_CAPACITY; lia).
  reflexivity.
Qed.


Lemma evict_full s :
  (3 <= length (lru s))%nat -> evict s = Some (List.last (lru s) 0, evicted s).
Proof.
  intros H. unfold evict, evicted, writeDisk. munfold.
  replace (Z.of_nat (length (lru s)) <? BUFFER_CAPACITY) with false
    by (symmetry; apply Z.ltb_ge; unfold BUFFER_CAPACITY; lia).
  destruct (dirty (frame s (List.last (lru s) 0))); reflexivity.
Qed.


(** Projections of the state updates. *)
Lemma frame_set_lru l s i : frame (set_lru l s) i = frame s i.
Proof. reflexivity. Qed.
Lemma frame_set_pageTable t s i : frame (set_pageTable t s) i = frame s i.
Proof. reflexivity. Qed.
Lemma frame_set_dbFile d s i : frame (set_dbFile d s) i = frame s i.
Proof. reflexivity. Qed.
Lemma frame_add_event e s i : frame (add_event e s) i = frame s i.
Proof. reflexivity. Qed.
Lemma frame_set_nextPageID n s i : frame (set_nextPageID n s) i = frame s i.
Proof. reflexivity. Qed.
Lemma frame_set_rootPage r s i : frame (set_rootPage r s) i = frame s i.
Proof. reflexivity. Qed.

Lemma pageTable_upd i g s : pageTable (upd_frame i g s) = pageTable s.
Proof. reflexivity. Qed.
Lemma lru_upd i g s : lru (upd_frame i g s) = lru s.
Proof. reflexivity. Qed.
Lemma dbFile_upd i g s : dbFile (upd_frame i g s) = dbFile s.
Proof. reflexivity. Qed.
Lemma nextPageID_upd i g s : nextPageID (upd_frame i g s) = nextPageID s.
Proof. reflexivity. Qed.
Lemma rootPage_upd i g s : rootPage (upd_frame i g s) = rootPage s.
Proof. reflexivity. Qed.

Create Rewrite HintDb eng.
#[global] Hint Rewrite frame_set_lru frame_set_pageTable frame_set_dbFile
  frame_add_event frame_set_nextPageID frame_set_rootPage : eng.
#[global] Hint Rewrite pool_length_upd pageTable_upd lru_upd dbFile_upd nextPageID_upd rootPage_upd : eng.

Arguments frame : simpl never.

(** What [disk_read] changes: the target frame, and the fail state. *)
Lemma disk_read_fields pid idx s :
  pool_len_eq (disk_read pid idx s) s /\
  pageTable (disk_read pid idx s) = pageTable s /\ lru (disk_read pid idx s) = lru s /\
  dbFile (disk_read pid idx s) = dbFile s /\ fileSize (disk_read pid idx s) = fileSize s /\
  nextPageID (disk_read pid idx s) = nextPageID s /\ rootPage (disk_read pid idx s) = rootPage s /\
  events (disk_read pid idx s) = events s /\
  failbit (disk_read pid idx s) = (if disk_image s pid then failbit s else true).
Proof.
  unfold disk_read, disk_image, pool_len_eq. cbv zeta.
  destruct (failbit s) eqn:Ef; simpl; [rewrite Ef; repeat split|].
  try rewrite Ef; simpl.
  destruct (page_offset pid <? 0) eqn:E1; simpl.
  - replace (0 <=? page_offset pid) with false by (symmetry; apply Z.leb_gt; apply Z.ltb_lt in E1; lia).
    simpl; repeat split.
  - replace (0 <=? page_offset pid) with true by (symmetry; apply Z.leb_le; apply Z.ltb_ge in E1; lia).
    simpl. destruct (page_offset pid + PAGE_SIZE <=? fileSize s); simpl;
      unfold upd_frame, set_pool; simpl; rewrite ?length_alter, ?Ef; repeat split.
Qed.


Lemma disk_write_fields pid d s :
  pool (disk_write pid d s) = pool s /\ pageTable (disk_write pid d s) = pageTable s /\
  lru (disk_write pid d s) = lru s /\ nextPageID (disk_write pid d s) = nextPageID s /\
  rootPage (disk_write pid d s) = rootPage s /\ events (disk_write pid d s) = events s.
Proof.
  unfold disk_write. destruct (failbit s); [repeat split|].
  destruct (page_offset pid <? 0); repeat split.
Qed.

Lemma stream_disk_write_event pid d e s :
  stream (disk_write pid d (add_event e s)) = stream (disk_write pid d s).
Proof.
  unfold disk_write, stream. simpl. destruct (failbit s); [reflexivity|].
  destruct (page_offset pid <? 0); reflexivity.
Qed.

Lemma disk_write_failed pid d s : failbit s = true -> disk_write pid d s = s.
Proof. intros H. unfold disk_write. rewrite H. reflexivity. Qed.

Lemma disk_read_failed pid idx s : failbit s = true -> disk_read pid idx s = s.
Proof. intros H. unfold disk_read. rewrite H. reflexivity. Qed.

Lemma disk_read_other pid idx s j :
  0 <= idx -> 0 <= j -> j <> idx -> frame (disk_read pid idx s) j = frame s j.
Proof.
  intros H0 H1 H2. unfold disk_read.
  destruct (failbit s); [reflexivity|].
  destruct (page_offset pid <? 0); [reflexivity|].
  destruct (page_offset pid + PAGE_SIZE <=? fileSize s); [|reflexivity].
  apply frame_upd_ne; lia.
Qed.

Lemma disk_read_target pid idx s :
  0 <= idx -> (Z.to_nat idx < length (pool s))%nat ->
  frame (disk_read pid idx s) idx =
    match disk_image s pid with
    | Some d => set_frame_data d (frame s idx)
    | None => frame s idx
    end.
Proof.
  intros H0 H1. unfold disk_read, disk_image.
  destruct (failbit s); simpl; [reflexivity|].
  destruct (page_offset pid <? 0) eqn:E1; simpl.
  - replace (0 <=? page_offset pid) with false by (symmetry; apply Z.leb_gt; apply Z.ltb_lt in E1; lia).
    reflexivity.
  - replace (0 <=? page_offset pid) with true by (symmetry; apply Z.leb_le; apply Z.ltb_ge in E1; lia).
    simpl. destruct (page_offset pid + PAGE_SIZE <=? fileSize s); [|reflexivity].
    apply frame_upd_eq; assumption.
Qed.

Lemma disk_image_failed s p : failbit s = true -> disk_image s p = None.
Proof. intros H. unfold disk_image. rewrite H. reflexivity. Qed.

Lemma install_frame s pid idx j :
  0 <= idx -> (Z.to_nat idx < length (pool s))%nat -> 0 <= j ->
  frame (install pid idx s) j =
    if decide (j = idx)
    then mkFrame pid false (match disk_image s pid with Some d => d | None => data (frame s idx) end)
    else frame s j.
Proof.
  intros H0 H1 H2. unfold install. autorewrite with eng.
  destruct (disk_read_fields pid idx s) as (Hp & _).
  destruct (decide (j = idx)) as [->|Hne].
  - rewrite !frame_upd_eq by (unfold pool_len_eq in Hp; autorewrite with eng; lia).
    rewrite disk_read_target by assumption.
    destruct (disk_image s pid); reflexivity.
  - rewrite !frame_upd_ne by lia. apply disk_read_other; lia.
Qed.


Lemma lru_split (l : list Z) :
  l <> [] -> l = removelast l ++ [List.last l 0].
Proof. intros H. apply app_removelast_last. exact H. Qed.

Lemma evicted_fields s :
  pool (evicted s) = pool s /\
  lru (evicted s) = removelast (lru s) /\
  pageTable (evicted s) = delete (pageID (frame s (List.last (lru s) 0))) (pageTable s) /\
  nextPageID (evicted s) = nextPageID s /\ rootPage (evicted s) = rootPage s /\
  stream (evicted s) =
    (if dirty (frame s (List.last (lru s) 0))
     then stream (disk_write (pageID (frame s (List.last (lru s) 0))) (data (frame s (List.last (lru s) 0))) s)
     else stream s).
Proof.
  unfold evicted. destruct (dirty (frame s (List.last (lru s) 0))); simpl;
    [|repeat split].
  match goal with |- context [disk_write ?p ?d ?x] =>
    destruct (disk_write_fields p d x) as (Hp & Ht & Hl & Hn & Hr & _) end.
  simpl in *. rewrite Hp, Ht, Hl, Hn, Hr. repeat split.
  unfold stream at 1. simpl. fold (stream (disk_write (pageID (frame s (List.last (lru s) 0)))
    (data (frame s (List.last (lru s) 0))) (add_event (EvDiskWrite (pageID (frame s (List.last (lru s) 0))))
    (add_event (EvEvict (pageID (frame s (List.last (lru s) 0)))) s)))).
  rewrite !stream_disk_write_event. reflexivity.
Qed.

Lemma frame_evicted s i : frame (evicted s) i = frame s i.
Proof.
  unfold frame. destruct (evicted_fields s) as [Hp _]. now rewrite Hp.
Qed.

Lemma evict_free s idx s1 :
  Coh s -> evict s = Some (idx, s1) ->
  Coh_free s1 idx /\ (forall p, pageTable s !! p = None -> pageTable s1 !! p = None) /\
  (forall i, In i (lru s1) -> In i (lru s)) /\
  (forall i, frame s1 i = frame s i).
Proof.
  intros Hc He. destruct Hc as [Hp Hnd Hlen Hr Ht Hs].
  destruct (decide (length (lru s) < 3)%nat) as [Hlt|Hge].
  - rewrite evict_notfull in He by done. injection He as <- <-.
    assert (Hn : ~ In (Z.of_nat (length (lru s))) (lru s)).
    { intros Hin. apply Hr in Hin. lia. }
    split; [split|]; auto.
    + now constructor.
    + intros i. simpl. rewrite Hr. lia.
  - rewrite evict_full in He by lia. injection He as <- <-.
    destruct (evicted_fields s) as (Hp1 & Hl1 & Ht1 & _ & _ & _).
    assert (Hne : lru s <> []) by (intros E; rewrite E in Hge; simpl in Hge; lia).
    pose proof (lru_split (lru s) Hne) as Hsplit.
    set (a := List.last (lru s) 0) in *. set (l' := removelast (lru s)) in *.
    assert (Hnd' : List.NoDup (l' ++ [a])) by (rewrite <- Hsplit; exact Hnd).
    assert (Hal : ~ In a l').
    { apply NoDup_remove_2 in Hnd'. rewrite app_nil_r in Hnd'. exact Hnd'. }
    assert (Hain : In a (lru s)) by (rewrite Hsplit; apply in_or_app; right; now left).
    assert (Hlen' : length (lru s) = S (length l'))
      by (rewrite Hsplit, length_app; simpl; lia).
    assert (Hva : pageTable s !! pageID (frame s a) = Some a) by (apply Ht; auto).
    assert (Hin_l : forall i, In i l' -> In i (lru s))
      by (intros i Hi; rewrite Hsplit; apply in_or_app; now left).
    split; [split|]; rewrite ?Hp1, ?Hl1, ?Ht1; try setoid_rewrite frame_evicted.
    + exact Hp.
    + constructor; [exact Hal|]. apply NoDup_app_remove_r in Hnd'. exact Hnd'.
    + lia.
    + intros i. split.
      * intros Hi. assert (In i (lru s)) by (destruct Hi as [<-|Hi]; auto).
        apply Hr in H. lia.
      * intros Hi. assert (Hi' : In i (lru s)) by (apply Hr; lia).
        rewrite Hsplit in Hi'. apply in_app_or in Hi'.
        destruct Hi' as [Hi'|[<-|[]]]; [right|left]; auto.
    + intros p i. rewrite lookup_delete_Some. rewrite Ht. split.
      * intros (Hpv & Hil & Hpi). split; [|exact Hpi].
        rewrite Hsplit in Hil. apply in_app_or in Hil.
        destruct Hil as [Hil|[<-|[]]]; [exact Hil|]. congruence.
      * intros (Hil & Hpi). split; [|split; [apply Hin_l; exact Hil|exact Hpi]].
        intros Hpv. subst p.
        assert (pageTable s !! pageID (frame s a) = Some i) by (apply Ht; auto).
        assert (i = a) by congruence. subst. contradiction.
    + rewrite map_size_delete_Some by (eexists; exact Hva). rewrite Hs. lia.
    + split.
      * intros p Hnone. rewrite lookup_delete_None. now right.
      * split; [exact Hin_l|]. intros i. first [reflexivity | apply frame_evicted].
Qed.

Lemma install_fields s pid idx :
  length (pool (install pid idx s)) = length (pool s) /\
  lru (install pid idx s) = touch_list idx (lru s) /\
  pageTable (install pid idx s) = <[pid := idx]> (pageTable s) /\
  dbFile (install pid idx s) = dbFile s /\
  nextPageID (install pid idx s) = nextPageID s /\
  rootPage (install pid idx s) = rootPage s /\
  fileSize (install pid idx s) = fileSize s /\
  events (install pid idx s) = events s /\
  failbit (install pid idx s) = (if disk_image s pid then failbit s else true).
Proof.
  destruct (disk_read_fields pid idx s) as (Hp & Ht & Hl & Hd & Hz & Hn & Hr & He & Hf).
  unfold install, pool_len_eq in *. simpl. rewrite ?length_alter.
  rewrite ?Hp, ?Ht, ?Hl, ?Hd, ?Hz, ?Hn, ?Hr, ?He, ?Hf. repeat split.
Qed.

Lemma install_coh s idx pid :
  Coh_free s idx -> pageTable s !! pid = None -> Coh (install pid idx s).
Proof.
  intros [Hp Hnd Hlen Hr Ht Hs] Hnone.
  destruct (install_fields s pid idx) as (Hp' & Hl' & Ht' & _).
  inversion Hnd as [|? ? Hidx Hnd0]; subst.
  rewrite touch_list_notin in Hl' by exact Hidx.
  assert (Hir : 0 <= idx < 3) by (assert (In idx (idx :: lru s)) by (now left); apply Hr in H; lia).
  assert (Hfr : forall j, 0 <= j -> frame (install pid idx s) j =
            if decide (j = idx)
            then mkFrame pid false (match disk_image s pid with Some d => d | None => data (frame s idx) end)
            else frame s j)
    by (intros j Hj; apply install_frame; lia).
  split; rewrite ?Hp', ?Hl', ?Ht'.
  - exact Hp.
  - exact Hnd.
  - simpl. lia.
  - intros i. rewrite Hr. simpl. lia.
  - intros p i. rewrite lookup_insert_Some. split.
    + intros [[<- <-]|[Hne Hpi]].
      * split; [now left|]. rewrite Hfr by lia. rewrite decide_True by done. reflexivity.
      * apply Ht in Hpi as [Hil Hpid]. split; [now right|].
        assert (i <> idx) by (intros ->; contradiction).
        assert (0 <= i) by (assert (In i (idx :: lru s)) by (now right); apply Hr in H0; lia).
        rewrite Hfr by lia. rewrite decide_False by done. exact Hpid.
    + intros [Hil Hpid].
      assert (0 <= i) by (apply Hr in Hil; lia).
      rewrite Hfr in Hpid by lia. destruct (decide (i = idx)) as [->|Hne].
      * left. simpl in Hpid. auto.
      * right. destruct Hil as [->|Hil]; [congruence|].
        split.
        -- intros ->. assert (pageTable s !! pageID (frame s i) = Some i) by (apply Ht; auto).
           congruence.
        -- apply Ht. auto.
  - rewrite map_size_insert_None by exact Hnone. simpl. lia.
Qed.

Lemma fetch_coh s pid i s' :
  Coh s -> fetchPage pid s = Some (i, s') ->
  Coh s' /\ pageTable s' !! pid = Some i /\ head (lru s') = Some i /\
  nextPageID s' = nextPageID s /\ rootPage s' = rootPage s.
Proof.
  intros Hc Hf. destruct (pageTable s !! pid) as [idx|] eqn:E.
  - rewrite (fetchPage_hit _ _ _ E) in Hf. injection Hf as <- <-.
    assert (Hin : In idx (lru s)) by (apply (coh_table _ Hc) in E; tauto).
    pose proof (touch_list_perm (lru s) idx (coh_nodup _ Hc) Hin) as Hperm.
    destruct Hc as [Hp Hnd Hlen Hr Ht Hs].
    split; [split|]; try setoid_rewrite frame_set_lru; unfold set_lru; cbn [lru pool pageTable nextPageID rootPage].
    + exact Hp.
    + eapply Permutation_NoDup; [symmetry; exact Hperm| exact Hnd].
    + rewrite (Permutation_length Hperm). exact Hlen.
    + intros j. rewrite (Permutation_length Hperm). rewrite <- Hr.
      split; apply Permutation_in; [|symmetry]; exact Hperm.
    + intros p j. rewrite Ht. split; intros [H1 H2]; split; auto.
      * exact (Permutation_in _ (Permutation_sym Hperm) H1).
      * exact (Permutation_in _ Hperm H1).
    + rewrite (Permutation_length Hperm). exact Hs.
    + repeat split; auto.
  - rewrite (fetchPage_miss _ _ E) in Hf.
    destruct (evict s) as [[idx s1]|] eqn:Ev; [|discriminate].
    injection Hf as <- <-.
    destruct (evict_free _ _ _ Hc Ev) as (Hcf & Hnone & _ & _).
    destruct (install_fields s1 pid idx) as (_ & Hl' & Ht' & _ & Hn' & Hr' & _).
    assert (Hnext : nextPageID s1 = nextPageID s /\ rootPage s1 = rootPage s).
    { destruct (decide (length (lru s) < 3)%nat).
      - rewrite evict_notfull in Ev by done. now injection Ev as _ <-.
      - rewrite evict_full in Ev by lia. injection Ev as _ <-.
        destruct (evicted_fields s) as (_ & _ & _ & ? & ? & _). auto. }
    split; [apply install_coh; auto|].
    rewrite Ht', Hl', Hn', Hr'. rewrite lookup_insert_eq. repeat split; tauto.
Qed.

Lemma frame_upd_pageID s i j g :
  (forall f, pageID (g f) = pageID f) ->
  pageID (frame (upd_frame i g s) j) = pageID (frame s j).
Proof.
  intros Hg. unfold frame, upd_frame, set_pool; simpl.
  rewrite list_lookup_alter. case_decide as E.
  - rewrite <- E. destruct (pool s !! Z.to_nat i); simpl; auto.
  - reflexivity.
Qed.

Lemma coh_upd_frame s i g :
  (forall f, pageID (g f) = pageID f) -> Coh s -> Coh (upd_frame i g s).
Proof.
  intros Hg [Hp Hnd Hlen Hr Ht Hs].
  split; autorewrite with eng; simpl; auto.
  intros p j. rewrite frame_upd_pageID by exact Hg. apply Ht.
Qed.

Lemma coh_set_nextPageID s n : Coh s -> Coh (set_nextPageID n s).
Proof. intros [Hp Hnd Hlen Hr Ht Hs]. split; simpl; autorewrite with eng; auto. Qed.

Lemma coh_set_rootPage s r : Coh s -> Coh (set_rootPage r s).
Proof. intros [Hp Hnd Hlen Hr Ht Hs]. split; simpl; autorewrite with eng; auto. Qed.


Lemma markDirty_eq pid s : markDirty pid s = Some (tt, mark_dirty_state pid s).
Proof.
  unfold markDirty, mark_dirty_state. munfold.
  destruct (pageTable s !! pid); reflexivity.
Qed.

Lemma coh_mark_dirty s pid : Coh s -> Coh (mark_dirty_state pid s).
Proof.
  intros Hc. unfold mark_dirty_state. destruct (pageTable s !! pid); [|exact Hc].
  apply coh_upd_frame; [reflexivity | exact Hc].
Qed.

Lemma evict_some s : exists r, evict s = Some r.
Proof.
  destruct (decide (length (lru s) < 3)%nat).
  - rewrite evict_notfull by done. eauto.
  - rewrite evict_full by lia. eauto.
Qed.

Lemma fetch_some pid s : exists r, fetchPage pid s = Some r.
Proof.
  destruct (pageTable s !! pid) eqn:E.
  - rewrite (fetchPage_hit _ _ _ E). eauto.
  - rewrite (fetchPage_miss _ _ E). destruct (evict_some s) as [[i s1] ->]. eauto.
Qed.

Lemma allocatePage_eq s :
  allocatePage s =
    match fetchPage (nextPageID s) (set_nextPageID (wrap32 (nextPageID s + 1)) s) with
    | Some (p, s1) =>
        Some (nextPageID s,
              mark_dirty_state (nextPageID s) (upd_frame p (set_frame_data zero_node) s1))
    | None => None
    end.
Proof.
  unfold allocatePage. munfold. simpl.
  destruct (fetchPage (nextPageID s) (set_nextPageID (wrap32 (nextPageID s + 1)) s)) as [[p s1]|];
    [|reflexivity].
  pose proof (markDirty_eq (nextPageID s) (upd_frame p (set_frame_data zero_node) s1)) as E.
  unfold upd_frame in *. munfold. simpl in *. unfold set_frame_data in *.
  rewrite E. reflexivity.
Qed.

Lemma coh_allocate s pid s' :
  Coh s -> allocatePage s = Some (pid, s') ->
  Coh s' /\ pid = nextPageID s /\ nextPageID s' = wrap32 (nextPageID s + 1) /\ rootPage s' = rootPage s.
Proof.
  intros Hc Ha. rewrite allocatePage_eq in Ha.
  destruct (fetchPage (nextPageID s) (set_nextPageID (wrap32 (nextPageID s + 1)) s)) as [[p s1]|] eqn:Ef;
    [|discriminate].
  injection Ha as <- <-.
  destruct (fetch_coh _ _ _ _ (coh_set_nextPageID s (wrap32 (nextPageID s + 1)) Hc) Ef)
    as (Hc1 & _ & _ & Hn1 & Hr1).
  split; [apply coh_mark_dirty, coh_upd_frame; [reflexivity|exact Hc1]|].
  unfold mark_dirty_state. simpl in Hn1, Hr1.
  destruct (pageTable _ !! _); simpl; auto.
Qed.

Lemma evict_len s idx s1 :
  evict s = Some (idx, s1) -> (length (lru s) <= S (length (lru s1)))%nat.
Proof.
  intros Ev. destruct (decide (length (lru s) < 3)%nat).
  - rewrite evict_notfull in Ev by done. injection Ev as _ <-. lia.
  - rewrite evict_full in Ev by lia. injection Ev as _ <-.
    destruct (evicted_fields s) as (_ & Hl & _). rewrite Hl.
    destruct (lru s) as [|x l] using rev_ind; [simpl in *; lia|].
    rewrite removelast_last, length_app. simpl. lia.
Qed.


Lemma fetch_unused s pid i s' :
  Coh s -> Unused s -> fetchPage pid s = Some (i, s') -> Unused s'.
Proof.
  intros Hc Hu Hf. destruct (pageTable s !! pid) as [idx|] eqn:E.
  - rewrite (fetchPage_hit _ _ _ E) in Hf. injection Hf as <- <-.
    assert (Hin : In idx (lru s)) by (apply (coh_table _ Hc) in E; tauto).
    pose proof (touch_list_perm (lru s) idx (coh_nodup _ Hc) Hin) as Hperm.
    intros j Hj Hn. rewrite frame_set_lru. apply Hu; [exact Hj|].
    intros Hj'. apply Hn. exact (Permutation_in _ (Permutation_sym Hperm) Hj').
  - rewrite (fetchPage_miss _ _ E) in Hf.
    destruct (evict s) as [[idx s1]|] eqn:Ev; [|discriminate].
    injection Hf as <- <-.
    destruct (evict_free _ _ _ Hc Ev) as (Hcf & _ & _ & Hfr).
    pose proof (evict_len _ _ _ Ev) as Hlen.
    destruct (install_fields s1 pid idx) as (_ & Hl' & _).
    assert (Hidx : ~ In idx (lru s1)) by (pose proof (cf_nodup _ _ Hcf) as H; inversion H; auto).
    rewrite touch_list_notin in Hl' by exact Hidx.
    assert (Hir : 0 <= idx < 3).
    { assert (In idx (idx :: lru s1)) by (now left). apply (cf_range _ _ Hcf) in H.
      pose proof (cf_len _ _ Hcf). lia. }
    intros j Hj Hn. rewrite Hl' in Hn.
    rewrite install_frame by (rewrite ?(cf_pool _ _ Hcf); lia).
    rewrite decide_False by (intros ->; apply Hn; now left).
    rewrite Hfr. apply Hu; [exact Hj|].
    intros Hj'. apply Hn. apply (cf_range _ _ Hcf).
    apply (coh_range _ Hc) in Hj'. lia.
Qed.

Lemma unused_upd_frame s i g :
  Coh s -> In i (lru s) -> Unused s -> Unused (upd_frame i g s).
Proof.
  intros Hc Hi Hu j Hj Hn.
  assert (0 <= i) by (apply (coh_range _ Hc) in Hi; lia).
  rewrite frame_upd_ne by (try lia; intros ->; contradiction).
  apply Hu; auto.
Qed.

Lemma unused_mark_dirty s pid : Coh s -> Unused s -> Unused (mark_dirty_state pid s).
Proof.
  intros Hc Hu. unfold mark_dirty_state. destruct (pageTable s !! pid) eqn:E; [|exact Hu].
  apply unused_upd_frame; auto. apply (coh_table _ Hc) in E. tauto.
Qed.

Lemma unused_allocate s pid s' :
  Coh s -> Unused s -> allocatePage s = Some (pid, s') -> Unused s'.
Proof.
  intros Hc Hu Ha. rewrite allocatePage_eq in Ha.
  destruct (fetchPage (nextPageID s) (set_nextPageID (wrap32 (nextPageID s + 1)) s)) as [[p s1]|] eqn:Ef;
    [|discriminate].
  injection Ha as <- <-.
  pose proof (coh_set_nextPageID s (wrap32 (nextPageID s + 1)) Hc) as Hc0.
  assert (Hu0 : Unused (set_nextPageID (wrap32 (nextPageID s + 1)) s)) by exact Hu.
  destruct (fetch_coh _ _ _ _ Hc0 Ef) as (Hc1 & Ht1 & _).
  pose proof (fetch_unused _ _ _ _ Hc0 Hu0 Ef) as Hu1.
  apply unused_mark_dirty; [apply coh_upd_frame; [reflexivity|exact Hc1]|].
  apply unused_upd_frame; auto. apply (coh_table _ Hc1) in Ht1. tauto.
Qed.

Lemma unused_set_nextPageID s n : Unused s -> Unused (set_nextPageID n s).
Proof. intros H. exact H. Qed.

(** ** Buffer-manager clients: sequences of [fetchPage], [allocatePage] and
    [markDirty] calls *)




Lemma coh_init : Coh init_engine.
Proof.
  split; simpl; try lia.
  - constructor.
  - intros p i. rewrite lookup_empty. simpl. split; [discriminate | tauto].
  - reflexivity.
Qed.

Lemma unused_init : Unused init_engine.
Proof.
  intros i Hi _. unfold frame. simpl.
  destruct (Z.to_nat i) as [|[|[|n]]] eqn:E; simpl; try reflexivity; lia.
Qed.

Lemma run_op_inv o s s' :
  Coh s -> Unused s -> exec (run_op o) s = Some s' -> Coh s' /\ Unused s'.
Proof.
  intros Hc Hu He. unfold exec, run_op in He. destruct o as [pid| |pid]; munfold.
  - destruct (fetchPage pid s) as [[i s1]|] eqn:Ef; [|discriminate].
    injection He as <-. split; [eapply fetch_coh; eauto | eapply fetch_unused; eauto].
  - destruct (allocatePage s) as [[i s1]|] eqn:Ea; [|discriminate].
    injection He as <-. split; [eapply coh_allocate; eauto | eapply unused_allocate; eauto].
  - rewrite markDirty_eq in He. injection He as <-.
    split; [apply coh_mark_dirty | apply unused_mark_dirty]; auto.
Qed.

Lemma run_ops_inv os s s' :
  Coh s -> Unused s -> exec (run_ops os) s = Some s' -> Coh s' /\ Unused s'.
Proof.
  revert s. induction os as [|o os IH]; intros s Hc Hu He; unfold exec in *; simpl in He.
  - injection He as <-. auto.
  - unfold mbind, M_bind, bindM in He.
    destruct (run_op o s) as [[[] s1]|] eqn:E1; [|discriminate].
    assert (H : exec (run_op o) s = Some s1) by (unfold exec; rewrite E1; reflexivity).
    destruct (run_op_inv o s s1 Hc Hu H). eapply IH; eauto.
Qed.




(** ** Concrete runs *)


Lemma disk_image_upd i g s p : disk_image (upd_frame i g s) p = disk_image s p.
Proof. reflexivity. Qed.

Lemma upd_frame_upd_frame_eq s i g h :
  upd_frame i g (upd_frame i h s) = upd_frame i (fun f => g (h f)) s.
Proof. unfold upd_frame, set_pool; simpl. now rewrite list_alter_alter_eq. Qed.

Lemma upd_frame_comm s i j g h :
  0 <= i -> 0 <= j -> i <> j ->
  upd_frame i g (upd_frame j h s) = upd_frame j h (upd_frame i g s).
Proof.
  intros. unfold upd_frame, set_pool; simpl. rewrite list_alter_alter_ne by lia. reflexivity.
Qed.

Lemma mark_dirty_resident s p i :
  pageTable s !! p = Some i -> mark_dirty_state p s = upd_frame i (set_frame_dirty true) s.
Proof. intros H. unfold mark_dirty_state. now rewrite H. Qed.

Lemma coh_other_frame s p q i j :
  Coh s -> pageTable s !! p = Some i -> pageTable s !! q = Some j -> p <> q -> i <> j.
Proof.
  intros Hc Hp Hq Hne ->. apply (coh_table _ Hc) in Hp, Hq. destruct Hp, Hq. congruence.
Qed.

Lemma coh_frame_range s p i :
  Coh s -> pageTable s !! p = Some i -> 0 <= i /\ (Z.to_nat i < length (pool s))%nat.
Proof.
  intros Hc Hp. apply (coh_table _ Hc) in Hp as [Hi _]. apply (coh_range _ Hc) in Hi.
  pose proof (coh_len _ Hc). pose proof (coh_pool _ Hc). lia.
Qed.

(** Writing the frame of a resident page leaves it resident; when the
    write also sets the dirty flag, the other frames are untouched and the
    clean frames still hold their disk images. *)

Lemma cons_but_of_cons s i : Cons s -> Cons_but s i.
Proof. intros Hk j Hj _. apply Hk. exact Hj. Qed.


Lemma upd_dirty_view s p i h :
  Coh s -> Cons_but s i -> pageTable s !! p = Some i ->
  (forall f, pageID (h f) = pageID f) -> (forall f, dirty (h f) = true) ->
  Coh (upd_frame i h s) /\ Cons (upd_frame i h s) /\
  pageTable (upd_frame i h s) = pageTable s /\
  view (upd_frame i h s) p = Some (data (h (frame s i))) /\
  frame (upd_frame i h s) i = h (frame s i) /\
  (forall q, q <> p -> view (upd_frame i h s) q = view s q).
Proof.
  intros Hc Hk Hp Hpid Hd.
  destruct (coh_frame_range _ _ _ Hc Hp) as [Hi0 Hi1].
  split; [apply coh_upd_frame; auto|].
  split.
  - intros j Hj Hcl. rewrite lru_upd in Hj. rewrite disk_image_upd.
    assert (0 <= j) by (apply (coh_range _ Hc) in Hj; lia).
    destruct (decide (j = i)) as [->|Hne].
    + rewrite frame_upd_eq in Hcl by auto. rewrite Hd in Hcl. discriminate.
    + rewrite frame_upd_ne in * by auto. apply Hk; auto.
  - split; [reflexivity|]. split.
    + unfold view, node_at. rewrite pageTable_upd, Hp, frame_upd_eq by auto. reflexivity.
    + split; [rewrite frame_upd_eq by auto; reflexivity|].
      intros q Hq. unfold view, node_at. rewrite pageTable_upd, disk_image_upd.
      destruct (pageTable s !! q) as [j|] eqn:Eq; [|reflexivity].
      pose proof (coh_other_frame _ _ _ _ _ Hc Hp Eq (fun E => Hq (eq_sym E))).
      destruct (coh_frame_range _ _ _ Hc Eq).
      rewrite frame_upd_ne by auto. reflexivity.
Qed.


Lemma last_in_tail (j : Z) (l : list Z) :
  l <> [] -> In (List.last (j :: l) 0) l.
Proof.
  revert j. induction l as [|x l IH]; intros j H; [congruence|].
  destruct l as [|y l]; [now left|].
  right. apply (IH x). discriminate.
Qed.

(** The most recently used page stays resident in its frame across a fetch
    of another page: the victim of a full pool is the tail of the list. *)
Lemma fetch_keeps s pid q j i s' :
  Coh s -> pageTable s !! q = Some j -> head (lru s) = Some j -> q <> pid ->
  fetchPage pid s = Some (i, s') -> pageTable s' !! q = Some j.
Proof.
  intros Hc Hq Hh Hne Hf. destruct (pageTable s !! pid) as [idx|] eqn:E.
  - rewrite (fetchPage_hit _ _ _ E) in Hf. injection Hf as _ <-. exact Hq.
  - rewrite (fetchPage_miss _ _ E) in Hf.
    destruct (evict s) as [[idx s1]|] eqn:Ev; [|discriminate].
    injection Hf as _ <-.
    destruct (install_fields s1 pid idx) as (_ & _ & Ht' & _).
    rewrite Ht', lookup_insert_ne by congruence.
    destruct (decide (length (lru s) < 3)%nat).
    + rewrite evict_notfull in Ev by done. injection Ev as _ <-. exact Hq.
    + rewrite evict_full in Ev by lia. injection Ev as _ <-.
      destruct (evicted_fields s) as (_ & _ & Ht1 & _).
      rewrite Ht1. rewrite lookup_delete_ne; [exact Hq|].
      destruct (lru s) as [|j' l] eqn:El; [discriminate|]. injection Hh as ->.
      pose proof (coh_nodup _ Hc) as Hnd. rewrite El in Hnd. inversion Hnd; subst.
      assert (Hl : l <> []) by (intros ->; simpl in n; lia).
      pose proof (last_in_tail j l Hl) as Hin.
      set (a := List.last (j :: l) 0) in *.
      assert (Hta : pageTable s !! pageID (frame s a) = Some a).
      { apply (coh_table _ Hc). rewrite El. split; [now right|reflexivity]. }
      intros Eq. rewrite Eq, Hq in Hta. injection Hta as <-. contradiction.
Qed.

Lemma seq_2 : seq 0 (Z.to_nat 2) = [0; 1]%nat.
Proof. reflexivity. Qed.

Ltac frames i j :=
  repeat first [rewrite (frame_upd_ne _ j i) by lia | rewrite (frame_upd_ne _ i j) by lia
               | rewrite (frame_upd_eq _ i) by (autorewrite with eng; lia)
               | rewrite (frame_upd_eq _ j) by (autorewrite with eng; lia)].


(** ** [insertIntoParent] *)

Lemma insertIntoParent_other s left key right :
  left <> rootPage s -> insertIntoParent left key right s = Some (tt, s).
Proof.
  intros Hne. unfold insertIntoParent. munfold.
  apply Z.eqb_neq in Hne. rewrite Hne. reflexivity.
Qed.


(** Writing the data of a frame that is already dirty. *)
Lemma upd_frame_dirty_same s i h :
  dirty (frame s i) = true -> 0 <= i -> (Z.to_nat i < length (pool s))%nat ->
  (forall f, dirty (h f) = dirty f) ->
  upd_frame i h s = upd_frame i (fun f => set_frame_dirty true (h f)) s.
Proof.
  intros Hd Hi0 Hi1 Hh. unfold upd_frame. f_equal.
  apply list_alter_ext. intros f Hf.
  unfold frame in Hd. rewrite Hf in Hd. simpl in Hd.
  specialize (Hh f). rewrite Hd in Hh.
  destruct (h f); simpl in *. unfold set_frame_dirty. simpl. congruence.
  reflexivity.
Qed.



Lemma first_index_gt_spec ks key :
  (first_index_gt ks key <= length ks)%nat /\
  (forall j, (j < first_index_gt ks key)%nat -> nth j ks 0 <= key) /\
  ((first_index_gt ks key < length ks)%nat -> key < nth (first_index_gt ks key) ks 0).
Proof.
  induction ks as [|k ks IH]; simpl.
  - split; [lia|]. split; intros; lia.
  - destruct (Z.ltb_spec key k) as [Hlt|Hge].
    + split; [lia|]. split; [intros; lia|]. intros _. exact Hlt.
    + destruct IH as (H1 & H2 & H3). split; [lia|]. split.
      * intros [|j] Hj; [exact Hge|]. apply H2. lia.
      * intros Hl. apply H3. lia.
Qed.

Lemma child_index_from_first ks i numK key :
  0 <= i ->
  child_index_from ks i numK key = i + Z.of_nat (first_index_gt (firstn (Z.to_nat (numK - i)) ks) key).
Proof.
  revert i. induction ks as [|k ks IH]; intros i Hi; simpl.
  - rewrite firstn_nil. simpl. lia.
  - destruct (Z.ltb_spec i numK) as [Hlt|Hge]; simpl.
    + replace (Z.to_nat (numK - i)) with (S (Z.to_nat (numK - (i + 1)))) by lia. simpl.
      destruct (Z.geb_spec key k) as [Hk|Hk]; simpl.
      * replace (key <? k) with false by (symmetry; apply Z.ltb_ge; lia).
        rewrite IH by lia. lia.
      * replace (key <? k) with true by (symmetry; apply Z.ltb_lt; lia). simpl. lia.
    + replace (Z.to_nat (numK - i)) with O by lia. simpl. lia.
Qed.

Lemma child_index_node n key :
  child_index_from (keys n) 0 (numKeys n) key = Z.of_nat (first_index_gt (node_keys n) key).
Proof.
  rewrite child_index_from_first by lia. unfold node_keys. rewrite Z.sub_0_r. lia.
Qed.

(** ** Key order inside the leaves *)

Lemma insert_sorted_sorted x l : Sorted Z.le l -> Sorted Z.le (insert_sorted x l).
Proof.
  induction l as [|y l IH]; intros Hs; simpl.
  - repeat constructor.
  - inversion Hs as [|? ? Hl Hy]; subst.
    destruct (Z.leb_spec x y) as [Hxy|Hxy].
    + constructor; [exact Hs|]. constructor. exact Hxy.
    + constructor; [apply IH; exact Hl|].
      destruct l as [|z l]; simpl; [constructor; lia|].
      inversion Hy; subst. destruct (x <=? z); constructor; lia.
Qed.

Lemma insert_sorted_perm x l : Permutation (insert_sorted x l) (x :: l).
Proof.
  induction l as [|y l IH]; simpl; [reflexivity|].
  destruct (x <=? y); [reflexivity|].
  transitivity (y :: x :: l); [constructor; exact IH| apply perm_swap].
Qed.

Lemma sort_keys_sorted l : Sorted Z.le (sort_keys l).
Proof. induction l; simpl; [constructor|]. apply insert_sorted_sorted. assumption. Qed.

Lemma sort_keys_perm l : Permutation (sort_keys l) l.
Proof.
  induction l as [|x l IH]; simpl; [reflexivity|].
  rewrite insert_sorted_perm. constructor. exact IH.
Qed.

Lemma shift_loop_length j ks key : length (fst (shift_loop j ks key)) = length ks.
Proof.
  revert ks. induction j as [|j IH]; intros ks; simpl; [reflexivity|].
  destruct (nth j ks 0 >? key); simpl; [|reflexivity].
  rewrite IH. apply length_insert.
Qed.

Lemma leaf_insert_fields n key :
  isLeaf (leaf_insert n key) = isLeaf n /\ numKeys (leaf_insert n key) = numKeys n + 1 /\
  parentPage (leaf_insert n key) = parentPage n /\ nextLeaf (leaf_insert n key) = nextLeaf n /\
  children (leaf_insert n key) = children n /\ length (keys (leaf_insert n key)) = length (keys n).
Proof.
  unfold leaf_insert. pose proof (shift_loop_length (Z.to_nat (numKeys n)) (keys n) key) as H.
  destruct (shift_loop (Z.to_nat (numKeys n)) (keys n) key) as [ks pos]. simpl in *.
  repeat split. rewrite length_insert. exact H.
Qed.

Ltac sorted_inv :=
  repeat match goal with
  | H : Sorted _ (_ :: _) |- _ => inversion H; subst; clear H
  | H : HdRel _ _ (_ :: _) |- _ => inversion H; subst; clear H
  end.

Lemma leaf_insert_sorted n key :
  length (keys n) = 3%nat -> 0 <= numKeys n < MAX_KEYS -> Sorted Z.le (node_keys n) ->
  Sorted Z.le (node_keys (leaf_insert n key)).
Proof.
  destruct n as [lf k pp ks ch nl]. unfold MAX_KEYS, node_keys, leaf_insert; simpl.
  intros Hl Hk Hs.
  destruct ks as [|a [|b [|c [|? ?]]]]; simpl in Hl; try discriminate.
  assert (k = 0 \/ k = 1 \/ k = 2) as [-> | [-> | ->]] by lia; simpl in *; sorted_inv;
    repeat (match goal with |- context [?x >? ?y] => destruct (Z.gtb_spec x y) end; simpl);
    repeat constructor; lia.
Qed.


Lemma leaf_insert_perm n key :
  length (keys n) = 3%nat -> 0 <= numKeys n < MAX_KEYS ->
  Permutation (node_keys (leaf_insert n key)) (key :: node_keys n).
Proof.
  destruct n as [lf k pp ks ch nl]. unfold MAX_KEYS, node_keys, leaf_insert; simpl.
  intros Hl Hk.
  destruct ks as [|a [|b [|c [|? ?]]]]; simpl in Hl; try discriminate.
  assert (k = 0 \/ k = 1 \/ k = 2) as [-> | [-> | ->]] by lia; simpl;
    repeat (match goal with |- context [?x >? ?y] => destruct (Z.gtb_spec x y) end; simpl);
    solve_Permutation.
Qed.



(** ** Frames across the buffer-manager operations *)

Lemma stream_upd i g s : stream (upd_frame i g s) = stream s.
Proof. reflexivity. Qed.

Lemma node_at_upd_data s i g :
  (forall f, data (g f) = data f) -> forall k, node_at (upd_frame i g s) k = node_at s k.
Proof.
  intros Hg k. unfold node_at, frame, upd_frame, set_pool; simpl.
  rewrite list_lookup_alter. case_decide as E.
  - rewrite <- E. destruct (pool s !! Z.to_nat i); simpl; auto.
  - reflexivity.
Qed.

Lemma evict_stream s idx s1 :
  evict s = Some (idx, s1) -> failbit s = true -> stream s1 = stream s.
Proof.
  intros Ev Hf. destruct (decide (length (lru s) < 3)%nat).
  - rewrite evict_notfull in Ev by done. injection Ev as _ <-. reflexivity.
  - rewrite evict_full in Ev by lia. injection Ev as _ <-.
    destruct (evicted_fields s) as (_ & _ & _ & _ & _ & Hs). rewrite Hs.
    destruct (dirty _); [|reflexivity]. rewrite disk_write_failed by exact Hf. reflexivity.
Qed.

Lemma fetch_frames s pid i s' :
  Coh s -> fetchPage pid s = Some (i, s') ->
  0 <= i < 3 /\ (forall k, 0 <= k -> k <> i -> frame s' k = frame s k) /\
  (failbit s = true ->
     stream s' = stream s /\ (forall k, 0 <= k -> node_at s' k = node_at s k)).
Proof.
  intros Hc Hf.
  destruct (fetch_coh _ _ _ _ Hc Hf) as (Hc' & Ht' & _).
  destruct (coh_frame_range _ _ _ Hc' Ht') as [Hi0 Hi1].
  rewrite (coh_pool _ Hc') in Hi1.
  split; [lia|].
  destruct (pageTable s !! pid) as [idx|] eqn:E.
  - rewrite (fetchPage_hit _ _ _ E) in Hf. injection Hf as <- <-.
    split; [reflexivity|]. split; reflexivity.
  - rewrite (fetchPage_miss _ _ E) in Hf.
    destruct (evict s) as [[idx s1]|] eqn:Ev; [|discriminate].
    injection Hf as <- <-.
    destruct (evict_free _ _ _ Hc Ev) as (Hcf & _ & _ & Hfr).
    assert (Hlen : (Z.to_nat idx < length (pool s1))%nat) by (rewrite (cf_pool _ _ Hcf); lia).
    split.
    + intros k Hk Hne. rewrite install_frame by (auto; lia). rewrite decide_False by done. apply Hfr.
    + intros Hfail.
      pose proof (evict_stream _ _ _ Ev Hfail) as Hs1.
      assert (Hf1 : failbit s1 = true) by (unfold stream in Hs1; congruence).
      destruct (install_fields s1 pid idx) as (_ & _ & _ & Hd & _ & _ & Hz & _ & Hb).
      split.
      * unfold stream in *. rewrite Hd, Hz, Hb, disk_image_failed by exact Hf1.
        rewrite <- Hf1. exact Hs1.
      * intros k Hk. unfold node_at. rewrite install_frame by (auto; lia).
        rewrite disk_image_failed by exact Hf1.
        destruct (decide (k = idx)) as [->|]; simpl; rewrite Hfr; reflexivity.
Qed.

Lemma alloc_frames s pid s' :
  Coh s -> allocatePage s = Some (pid, s') ->
  pid = nextPageID s /\ nextPageID s' = wrap32 (pid + 1) /\ rootPage s' = rootPage s /\ Coh s' /\
  exists j, pageTable s' !! pid = Some j /\ head (lru s') = Some j /\ 0 <= j < 3 /\
    frame s' j = mkFrame pid true zero_node /\
    (forall k, 0 <= k -> k <> j -> frame s' k = frame s k) /\
    (failbit s = true -> stream s' = stream s).
Proof.
  intros Hc Ha. rewrite allocatePage_eq in Ha.
  destruct (fetchPage (nextPageID s) (set_nextPageID (wrap32 (nextPageID s + 1)) s)) as [[p s1]|] eqn:Ef;
    [|discriminate].
  injection Ha as <- <-.
  pose proof (coh_set_nextPageID s (wrap32 (nextPageID s + 1)) Hc) as Hc0.
  destruct (fetch_coh _ _ _ _ Hc0 Ef) as (Hc1 & Ht1 & Hh1 & Hn1 & Hr1).
  destruct (fetch_frames _ _ _ _ Hc0 Ef) as (Hp & Ho & Hs).
  rewrite (mark_dirty_resident _ _ p) by (rewrite pageTable_upd; exact Ht1).
  rewrite upd_frame_upd_frame_eq.
  assert (Hpl : length (pool s1) = 3%nat) by exact (coh_pool _ Hc1).
  split; [reflexivity|].
  autorewrite with eng. split; [exact Hn1|]. split; [exact Hr1|].
  split; [apply coh_upd_frame; [reflexivity|exact Hc1]|].
  exists p. split; [exact Ht1|]. split; [exact Hh1|]. split; [exact Hp|].
  split.
  - rewrite frame_upd_eq by lia.
    apply (coh_table _ Hc1) in Ht1 as [_ Hpid].
    destruct (frame s1 p) as [pg dr dt]; simpl in *. subst pg. reflexivity.
  - split.
    + intros k Hk Hne. rewrite frame_upd_ne by lia. rewrite Ho by auto. reflexivity.
    + intros Hf. rewrite stream_upd. apply Hs. exact Hf.
Qed.

Lemma mark_dirty_fields s pid :
  (forall k, node_at (mark_dirty_state pid s) k = node_at s k) /\
  stream (mark_dirty_state pid s) = stream s /\
  pageTable (mark_dirty_state pid s) = pageTable s /\ lru (mark_dirty_state pid s) = lru s /\
  nextPageID (mark_dirty_state pid s) = nextPageID s /\ rootPage (mark_dirty_state pid s) = rootPage s /\
  (forall k, pageID (frame (mark_dirty_state pid s) k) = pageID (frame s k)).
Proof.
  unfold mark_dirty_state. destruct (pageTable s !! pid) as [i|]; [|repeat split].
  split; [apply node_at_upd_data; reflexivity|].
  repeat split. intros k. apply frame_upd_pageID. reflexivity.
Qed.

Lemma findLeaf_failed fuel p key s c s' :
  Coh s -> failbit s = true -> findLeaf fuel p key s = Some (c, s') ->
  Coh s' /\ stream s' = stream s /\ (forall k, 0 <= k -> node_at s' k = node_at s k) /\
  nextPageID s' = nextPageID s /\ rootPage s' = rootPage s /\
  exists i, pageTable s' !! c = Some i /\ head (lru s') = Some i /\ 0 <= i < 3 /\
    isLeaf (node_at s' i) = true.
Proof.
  revert p s. induction fuel as [|fuel IH]; intros p s Hc Hfb Hf; [discriminate|].
  cbn [findLeaf] in Hf. munfold.
  destruct (fetchPage p s) as [[f s1]|] eqn:Ef; [|discriminate].
  destruct (fetch_coh _ _ _ _ Hc Ef) as (Hc1 & Ht1 & Hh1 & Hn1 & Hr1).
  destruct (fetch_frames _ _ _ _ Hc Ef) as (Hfr & _ & Hs).
  destruct (Hs Hfb) as [Hs1 Hn].
  assert (Hfb1 : failbit s1 = true) by (unfold stream in Hs1; congruence).
  destruct (isLeaf (node_at s1 f)) eqn:El.
  - injection Hf as <- <-. split; [exact Hc1|]. split; [exact Hs1|]. split; [exact Hn|].
    split; [exact Hn1|]. split; [exact Hr1|]. exists f. auto.
  - destruct (IH _ _ Hc1 Hfb1 Hf) as (Hc' & Hs' & Hn' & Hx & Hr & Hi).
    split; [exact Hc'|]. split; [congruence|].
    split; [intros k Hk; rewrite Hn', Hn by exact Hk; reflexivity|].
    split; [congruence|]. split; [congruence|]. exact Hi.
Qed.

Lemma allocate_some s : exists r, allocatePage s = Some r.
Proof.
  rewrite allocatePage_eq.
  destruct (fetch_some (nextPageID s) (set_nextPageID (wrap32 (nextPageID s + 1)) s)) as [[p s1] ->].
  eauto.
Qed.

(** ** Page table and LRU list across a fetch *)

Lemma fetch_cases s pid i s' :
  Coh s -> fetchPage pid s = Some (i, s') ->
  (pageTable s !! pid = Some i /\ pageTable s' = pageTable s /\ lru s' = touch_list i (lru s)) \/
  (pageTable s !! pid = None /\ (length (lru s) < 3)%nat /\ i = Z.of_nat (length (lru s)) /\
   pageTable s' = <[pid := i]> (pageTable s) /\ lru s' = i :: lru s) \/
  (pageTable s !! pid = None /\ length (lru s) = 3%nat /\ i = List.last (lru s) 0 /\
   pageTable s' = <[pid := i]> (delete (pageID (frame s i)) (pageTable s)) /\
   lru s' = i :: removelast (lru s)).
Proof.
  intros Hc Hf. destruct (pageTable s !! pid) as [idx|] eqn:E.
  - rewrite (fetchPage_hit _ _ _ E) in Hf. injection Hf as <- <-. left. auto.
  - rewrite (fetchPage_miss _ _ E) in Hf.
    destruct (evict s) as [[idx s1]|] eqn:Ev; [|discriminate].
    injection Hf as <- <-.
    destruct (evict_free _ _ _ Hc Ev) as (Hcf & _ & _ & _).
    pose proof (cf_nodup _ _ Hcf) as Hnd. inversion Hnd as [|? ? Hidx _]; subst.
    destruct (install_fields s1 pid idx) as (_ & Hl & Ht & _).
    rewrite touch_list_notin in Hl by exact Hidx.
    right. destruct (decide (length (lru s) < 3)%nat).
    + rewrite evict_notfull in Ev by done. injection Ev as <- <-. left. auto.
    + rewrite evict_full in Ev by lia. injection Ev as <- <-. right.
      destruct (evicted_fields s) as (_ & Hl1 & Ht1 & _).
      rewrite Hl, Ht, Hl1, Ht1. pose proof (coh_len _ Hc). repeat split; auto; lia.
Qed.

Lemma fetch_len_mono s pid i s' :
  Coh s -> fetchPage pid s = Some (i, s') -> (length (lru s) <= length (lru s'))%nat.
Proof.
  intros Hc Hf.
  destruct (fetch_cases _ _ _ _ Hc Hf) as [(Hi & _ & Hl)|[(_ & _ & _ & _ & Hl)|(_ & H3 & _ & _ & Hl)]];
    rewrite Hl.
  - assert (Hin : In i (lru s)) by (apply (coh_table _ Hc) in Hi; tauto).
    rewrite (Permutation_length (touch_list_perm _ _ (coh_nodup _ Hc) Hin)). lia.
  - simpl. lia.
  - simpl. assert (Hne : lru s <> []) by (intros E; rewrite E in H3; discriminate).
    pose proof (f_equal (@length Z) (lru_split _ Hne)) as HL.
    rewrite length_app in HL. simpl in HL. lia.
Qed.

Lemma fetch_len_step s pid i s' :
  Coh s -> fetchPage pid s = Some (i, s') -> (length (lru s') <= S (length (lru s)))%nat.
Proof.
  intros Hc Hf.
  destruct (fetch_cases _ _ _ _ Hc Hf) as [(Hi & _ & Hl)|[(_ & _ & _ & _ & Hl)|(_ & H3 & _ & _ & Hl)]];
    rewrite Hl.
  - assert (Hin : In i (lru s)) by (apply (coh_table _ Hc) in Hi; tauto).
    rewrite (Permutation_length (touch_list_perm _ _ (coh_nodup _ Hc) Hin)). lia.
  - simpl. lia.
  - simpl. assert (Hne : lru s <> []) by (intros E; rewrite E in H3; discriminate).
    pose proof (f_equal (@length Z) (lru_split _ Hne)) as HL.
    rewrite length_app in HL. simpl in HL. lia.
Qed.

Lemma fetch_keeps_gen s pid q j i s' :
  Coh s -> pageTable s !! q = Some j -> q <> pid ->
  ((length (lru s) < 3)%nat \/ j <> List.last (lru s) 0) ->
  fetchPage pid s = Some (i, s') -> pageTable s' !! q = Some j.
Proof.
  intros Hc Hq Hne Hv Hf.
  destruct (fetch_cases _ _ _ _ Hc Hf) as [(_ & Ht & _)|[(_ & _ & _ & Ht & _)|(_ & H3 & Hi & Ht & _)]];
    rewrite Ht.
  - exact Hq.
  - rewrite lookup_insert_ne by congruence. exact Hq.
  - rewrite lookup_insert_ne by congruence. rewrite lookup_delete_ne; [exact Hq|].
    destruct Hv as [Hv|Hv]; [lia|].
    assert (Hin : In i (lru s)).
    { rewrite Hi. destruct (lru s) as [|a l] eqn:El; [simpl in H3; lia|].
      rewrite <- El. rewrite (lru_split (lru s)) at 2 by congruence.
      apply in_or_app. right. left. reflexivity. }
    assert (Hti : pageTable s !! pageID (frame s i) = Some i) by (apply (coh_table _ Hc); auto).
    intros E. rewrite E, Hq in Hti. injection Hti as ->. congruence.
Qed.

Lemma fetch_table_sub s pid i s' :
  Coh s -> fetchPage pid s = Some (i, s') ->
  forall q k, pageTable s' !! q = Some k -> q = pid \/ exists k', pageTable s !! q = Some k'.
Proof.
  intros Hc Hf q k Hq.
  destruct (decide (q = pid)) as [->|Hne]; [left; reflexivity|right].
  destruct (fetch_cases _ _ _ _ Hc Hf) as [(_ & Ht & _)|[(_ & _ & _ & Ht & _)|(_ & _ & _ & Ht & _)]];
    rewrite Ht in Hq.
  - eauto.
  - rewrite lookup_insert_ne in Hq by congruence. eauto.
  - rewrite lookup_insert_ne in Hq by congruence. apply lookup_delete_Some in Hq as [_ Hq]. eauto.
Qed.

Lemma fetch_second s pid i s' a l :
  Coh s -> lru s = a :: l -> i <> a -> fetchPage pid s = Some (i, s') ->
  exists l', lru s' = i :: a :: l'.
Proof.
  intros Hc El Hia Hf.
  destruct (fetch_cases _ _ _ _ Hc Hf) as [(_ & _ & Hl)|[(_ & _ & _ & _ & Hl)|(_ & H3 & Hi & _ & Hl)]];
    rewrite Hl, El.
  - unfold touch_list. simpl. replace (a =? i) with false by (symmetry; apply Z.eqb_neq; congruence).
    simpl. eauto.
  - eauto.
  - rewrite El in H3. destruct l as [|b l]; [simpl in H3; lia|]. simpl. eauto.
Qed.

Lemma alloc_table s pid s' :
  Coh s -> allocatePage s = Some (pid, s') ->
  (forall q k, pageTable s' !! q = Some k -> q = pid \/ exists k', pageTable s !! q = Some k') /\
  (forall q j, pageTable s !! q = Some j -> q <> pid ->
     ((length (lru s) < 3)%nat \/ j <> List.last (lru s) 0) -> pageTable s' !! q = Some j) /\
  (length (lru s) <= length (lru s') <= S (length (lru s)))%nat.
Proof.
  intros Hc Ha. rewrite allocatePage_eq in Ha.
  destruct (fetchPage (nextPageID s) (set_nextPageID (wrap32 (nextPageID s + 1)) s)) as [[p s1]|] eqn:Ef;
    [|discriminate].
  injection Ha as <- <-.
  destruct (mark_dirty_fields (upd_frame p (set_frame_data zero_node) s1) (nextPageID s))
    as (_ & _ & -> & -> & _).
  rewrite pageTable_upd, lru_upd.
  pose proof (coh_set_nextPageID _ (wrap32 (nextPageID s + 1)) Hc) as Hc0.
  split; [exact (fetch_table_sub _ _ _ _ Hc0 Ef)|].
  split; [intros q j Hq Hne Hv; exact (fetch_keeps_gen _ _ _ _ _ _ Hc0 Hq Hne Hv Ef)|].
  split; [exact (fetch_len_mono _ _ _ _ Hc0 Ef)|exact (fetch_len_step _ _ _ _ Hc0 Ef)].
Qed.


Lemma alloc_keeps s q j pid s' :
  Coh s -> pageTable s !! q = Some j -> head (lru s) = Some j -> q <> nextPageID s ->
  allocatePage s = Some (pid, s') -> pageTable s' !! q = Some j.
Proof.
  intros Hc Hq Hh Hne Ha. rewrite allocatePage_eq in Ha.
  destruct (fetchPage (nextPageID s) (set_nextPageID (wrap32 (nextPageID s + 1)) s)) as [[p s1]|] eqn:Ef;
    [|discriminate].
  injection Ha as <- <-.
  destruct (mark_dirty_fields (upd_frame p (set_frame_data zero_node) s1) (nextPageID s))
    as (_ & _ & -> & _).
  rewrite pageTable_upd.
  exact (fetch_keeps _ _ _ _ _ _ (coh_set_nextPageID _ _ Hc) Hq Hh Hne Ef).
Qed.

Lemma head_not_victim s i :
  Coh s -> head (lru s) = Some i -> (length (lru s) < 3)%nat \/ i <> List.last (lru s) 0.
Proof.
  intros Hc Hh. pose proof (coh_nodup _ Hc) as Hnd.
  destruct (lru s) as [|a l] eqn:El; [discriminate|]. injection Hh as ->.
  destruct l as [|b l]; [left; simpl; lia|right].
  inversion Hnd as [|? ? Hni _]; subst.
  pose proof (last_in_tail i (b :: l) ltac:(discriminate)) as Hin.
  intros E. rewrite <- E in Hin. contradiction.
Qed.

Lemma splitLeaf_frames s old key i :
  Coh s -> pageTable s !! old = Some i -> ((length (lru s) < 3)%nat \/ i <> List.last (lru s) 0) ->
  old <> nextPageID s ->
  let np := nextPageID s in let n := node_at s i in let t := split_temp n key in
  exists s' j, splitLeaf old key s = insertIntoParent old (nth 2 t 0) np s' /\
    Coh s' /\ nextPageID s' = wrap32 (np + 1) /\ rootPage s' = rootPage s /\
    pageTable s' !! old = Some i /\ pageTable s' !! np = Some j /\ j <> i /\
    0 <= i < 3 /\ 0 <= j < 3 /\ head (lru s') = Some j /\
    frame s' i = mkFrame old true (split_old n t) /\
    frame s' j = mkFrame np true (split_new zero_node t) /\
    (forall k, 0 <= k -> k <> i -> k <> j -> frame s' k = frame s k) /\
    (failbit s = true -> stream s' = stream s) /\
    (forall q k, pageTable s' !! q = Some k -> q = np \/ exists k', pageTable s !! q = Some k') /\
    (forall q k, pageTable s !! q = Some k -> q <> np ->
       ((length (lru s) < 3)%nat \/ k <> List.last (lru s) 0) -> pageTable s' !! q = Some k) /\
    (length (lru s) <= length (lru s') <= S (length (lru s)))%nat.
Proof.
  intros Hc Hi Hh Hne np n t.
  destruct (allocate_some s) as [[np' s1] Ea].
  destruct (alloc_frames _ _ _ Hc Ea) as (-> & Hn1 & Hr1 & Hc1 & p & Ht1 & Hh1 & Hp & Hfp & Ho1 & Hs1).
  fold np in Hn1, Ht1, Hfp, Ea |- *.
  pose proof (proj1 (proj2 (alloc_table _ _ _ Hc Ea)) old i Hi Hne Hh) as Hi1.
  pose proof (fetchPage_hit _ _ _ Hi1) as E1.
  set (s2 := set_lru (touch_list i (lru s1)) s1) in *.
  assert (Ht2p : pageTable s2 !! np = Some p) by exact Ht1.
  pose proof (fetchPage_hit _ _ _ Ht2p) as E2.
  set (s3 := set_lru (touch_list p (lru s2)) s2) in *.
  assert (Hc3 : Coh s3).
  { destruct (fetch_coh _ _ _ _ Hc1 E1) as (Hc2 & _).
    destruct (fetch_coh _ _ _ _ Hc2 E2) as (Hc3 & _). exact Hc3. }
  assert (Ht3o : pageTable s3 !! old = Some i) by exact Hi1.
  assert (Ht3 : pageTable s3 !! np = Some p) by exact Ht1.
  pose proof (coh_other_frame _ _ _ _ _ Hc3 Ht3o Ht3 Hne) as Hf12.
  destruct (coh_frame_range _ _ _ Hc3 Ht3o) as [Hf1a Hf1b].
  destruct (coh_frame_range _ _ _ Hc3 Ht3) as [Hf2a Hf2b].
  assert (Hp3 : length (pool s3) = 3%nat) by exact (coh_pool _ Hc3).
  assert (Hfi : frame s3 i = frame s i) by exact (Ho1 i Hf1a Hf12).
  assert (Hfp3 : frame s3 p = mkFrame np true zero_node) by exact Hfp.
  assert (Hpid : pageID (frame s i) = old) by (apply (coh_table _ Hc) in Hi; tauto).
  assert (Hd1 : data (frame s3 i) = n) by (rewrite Hfi; reflexivity).
  assert (Hd2 : data (frame s3 p) = zero_node) by (rewrite Hfp3; reflexivity).
  unfold splitLeaf. munfold. rewrite Ea, E1, E2. fold s2 s3.
  cbn -[upd_frame frame sort_keys seq for_ markDirty insertIntoParent].
  unfold node_at, MAX_KEYS.
  change (Z.to_nat ((3 + 1) / 2)) with 2%nat. change (3 + 1 - (3 + 1) / 2) with 2.
  change ((3 + 1) / 2) with 2. change (Z.to_nat 3) with 3%nat.
  frames i p.
  cbn -[upd_frame frame sort_keys markDirty insertIntoParent]. rewrite seq_2.
  do 3 (cbn -[upd_frame frame sort_keys markDirty insertIntoParent]; munfold).
  frames i p.
  cbn -[upd_frame frame sort_keys markDirty insertIntoParent]. rewrite seq_2.
  do 3 (cbn -[upd_frame frame sort_keys markDirty insertIntoParent]; munfold).
  rewrite !markDirty_eq.
  cbn -[upd_frame frame sort_keys mark_dirty_state insertIntoParent].
  rewrite (mark_dirty_resident _ old i) by (autorewrite with eng; exact Ht3o).
  rewrite (mark_dirty_resident _ np p) by (autorewrite with eng; exact Ht3).
  frames i p.
  cbn -[upd_frame frame sort_keys insertIntoParent].
  rewrite Hd1, Hd2. cbn [keys zero_node]. cbn -[upd_frame frame sort_keys insertIntoParent].
  change (sort_keys (firstn 3 (keys n) ++ [key])) with t.
  repeat rewrite (upd_frame_comm _ i p) by lia.
  rewrite !upd_frame_upd_frame_eq.
  eexists; exists p; split; [reflexivity|].
  match goal with |- context [upd_frame p ?H2 (upd_frame i ?H1 s3)] =>
    set (h1 := H1); set (h2 := H2) end.
  assert (Hl4 : length (pool (upd_frame i h1 s3)) = 3%nat) by (rewrite pool_length_upd; exact Hp3).
  assert (Hfs : frame s i = mkFrame old (dirty (frame s i)) n)
    by (unfold n, node_at; rewrite <- Hpid; destruct (frame s i); reflexivity).
  split; [apply coh_upd_frame; [intros; reflexivity|];
          apply coh_upd_frame; [intros; reflexivity|exact Hc3]|].
  autorewrite with eng.
  split; [exact Hn1|]. split; [exact Hr1|]. split; [exact Ht3o|]. split; [exact Ht3|].
  split; [congruence|]. split; [lia|]. split; [exact Hp|].
  split; [unfold s3, touch_list; reflexivity|].
  split; [rewrite frame_upd_ne, frame_upd_eq, Hfi, Hfs by lia; reflexivity|].
  split; [rewrite frame_upd_eq, frame_upd_ne, Hfp3 by lia; reflexivity|].
  split.
  - intros k Hk Hki Hkp. rewrite !frame_upd_ne by lia. exact (Ho1 k Hk Hkp).
  - split; [intros Hf; rewrite !stream_upd; exact (Hs1 Hf)|].
    destruct (alloc_table _ _ _ Hc Ea) as (Hsub & Hkeep & Hlen).
    split; [exact Hsub|]. split; [exact Hkeep|].
    assert (L : length (lru s3) = length (lru s1)).
    { assert (Hin1 : In i (lru s1)) by (apply (coh_table _ Hc1) in Hi1; tauto).
      assert (Hin2 : In p (lru s1)) by (apply (coh_table _ Hc1) in Ht1; tauto).
      pose proof (coh_nodup _ Hc1) as Hnd.
      pose proof (touch_list_perm _ _ Hnd Hin1) as P1.
      change (length (touch_list p (touch_list i (lru s1))) = length (lru s1)).
      rewrite (Permutation_length (touch_list_perm _ _ (Permutation_NoDup (Permutation_sym P1) Hnd)
                 (Permutation_in _ (Permutation_sym P1) Hin2))).
      exact (Permutation_length P1). }
    change (length (lru s) <= length (lru s3) <= S (length (lru s)))%nat. lia.
Qed.

Lemma upd_frame_at s i g h :
  g (frame s i) = h (frame s i) -> upd_frame i g s = upd_frame i h s.
Proof.
  intros E. unfold upd_frame. f_equal. apply list_alter_ext; [|reflexivity]. intros x Hx.
  unfold frame in E. rewrite Hx in E. exact E.
Qed.

Lemma insertIntoLeaf_eq s pid key f s1 :
  Coh s -> fetchPage pid s = Some (f, s1) ->
  insertIntoLeaf pid key s =
    if numKeys (node_at s1 f) <? MAX_KEYS
    then Some (tt, upd_frame f (fun fr => set_frame_dirty true
                     (set_frame_data (leaf_insert (node_at s1 f) key) fr)) s1)
    else splitLeaf pid key s1.
Proof.
  intros Hc Ef.
  destruct (fetch_coh _ _ _ _ Hc Ef) as (Hc1 & Ht1 & _).
  unfold insertIntoLeaf. munfold. rewrite Ef. cbn -[upd_frame frame markDirty shift_loop splitLeaf].
  destruct (numKeys (node_at s1 f) <? MAX_KEYS); [|reflexivity].
  unfold leaf_insert.
  destruct (shift_loop (Z.to_nat (numKeys (node_at s1 f))) (keys (node_at s1 f)) key) as [ks pos].
  cbn -[upd_frame frame markDirty].
  rewrite markDirty_eq, (mark_dirty_resident _ _ f) by (autorewrite with eng; exact Ht1).
  rewrite !upd_frame_upd_frame_eq.
  do 2 f_equal. apply upd_frame_at. reflexivity.
Qed.

Lemma splitLeaf_same s old key :
  Coh s -> old = nextPageID s ->
  let t := split_temp zero_node key in
  exists s' j, splitLeaf old key s = insertIntoParent old (nth 2 t 0) old s' /\
    Coh s' /\ nextPageID s' = wrap32 (old + 1) /\ rootPage s' = rootPage s /\
    pageTable s' !! old = Some j /\ 0 <= j < 3 /\ head (lru s') = Some j /\
    frame s' j = mkFrame old true (split_new (split_old zero_node t) t) /\
    (forall k, 0 <= k -> k <> j -> frame s' k = frame s k) /\
    (failbit s = true -> stream s' = stream s).
Proof.
  intros Hc -> t.
  destruct (allocate_some s) as [[np' s1] Ea].
  destruct (alloc_frames _ _ _ Hc Ea) as (-> & Hn1 & Hr1 & Hc1 & p & Ht1 & Hh1 & Hp & Hfp & Ho1 & Hs1).
  pose proof (fetchPage_hit _ _ _ Ht1) as E1.
  set (s2 := set_lru (touch_list p (lru s1)) s1) in *.
  assert (Ht2 : pageTable s2 !! nextPageID s = Some p) by exact Ht1.
  pose proof (fetchPage_hit _ _ _ Ht2) as E2.
  set (s3 := set_lru (touch_list p (lru s2)) s2) in *.
  assert (Hc3 : Coh s3).
  { destruct (fetch_coh _ _ _ _ Hc1 E1) as (Hc2 & _).
    destruct (fetch_coh _ _ _ _ Hc2 E2) as (Hc3 & _). exact Hc3. }
  assert (Ht3 : pageTable s3 !! nextPageID s = Some p) by exact Ht1.
  destruct (coh_frame_range _ _ _ Hc3 Ht3) as [Hf2a Hf2b].
  assert (Hp3 : length (pool s3) = 3%nat) by exact (coh_pool _ Hc3).
  assert (Hfp3 : frame s3 p = mkFrame (nextPageID s) true zero_node) by exact Hfp.
  assert (Hd2 : data (frame s3 p) = zero_node) by (rewrite Hfp3; reflexivity).
  unfold splitLeaf. munfold. rewrite Ea, E1, E2. fold s2 s3.
  cbn -[upd_frame frame sort_keys seq for_ markDirty insertIntoParent].
  unfold node_at, MAX_KEYS.
  change (Z.to_nat ((3 + 1) / 2)) with 2%nat. change (3 + 1 - (3 + 1) / 2) with 2.
  change ((3 + 1) / 2) with 2. change (Z.to_nat 3) with 3%nat.
  frames p p.
  cbn -[upd_frame frame sort_keys markDirty insertIntoParent]. rewrite seq_2.
  do 3 (cbn -[upd_frame frame sort_keys markDirty insertIntoParent]; munfold).
  frames p p.
  cbn -[upd_frame frame sort_keys markDirty insertIntoParent]. rewrite seq_2.
  do 3 (cbn -[upd_frame frame sort_keys markDirty insertIntoParent]; munfold).
  rewrite !markDirty_eq.
  cbn -[upd_frame frame sort_keys mark_dirty_state insertIntoParent].
  rewrite (mark_dirty_resident (upd_frame _ _ _) (nextPageID s) p) by (autorewrite with eng; exact Ht3).
  rewrite (mark_dirty_resident _ (nextPageID s) p) by (autorewrite with eng; exact Ht3).
  frames p p.
  cbn -[upd_frame frame sort_keys insertIntoParent].
  rewrite Hd2. cbn [keys zero_node]. cbn -[upd_frame frame sort_keys insertIntoParent].
  rewrite !upd_frame_upd_frame_eq.
  match goal with |- context [upd_frame p ?H s3] => set (h := H) end.
  exists (upd_frame p h s3), p. split; [reflexivity|].
  split; [apply coh_upd_frame; [intros; reflexivity|exact Hc3]|].
  autorewrite with eng.
  split; [exact Hn1|]. split; [exact Hr1|]. split; [exact Ht3|]. split; [exact Hp|].
  split; [unfold s3, touch_list; reflexivity|].
  split; [rewrite frame_upd_eq, Hfp3 by lia; reflexivity|].
  split.
  - intros k Hk Hkp. rewrite frame_upd_ne by lia. exact (Ho1 k Hk Hkp).
  - intros Hf. rewrite stream_upd. exact (Hs1 Hf).
Qed.

Lemma insertIntoParent_root_frames s left key right :
  Coh s -> left = rootPage s ->
  let np := nextPageID s in
  exists s' r, insertIntoParent left key right s = Some (tt, s') /\
    Coh s' /\ rootPage s' = np /\ nextPageID s' = wrap32 (np + 1) /\
    pageTable s' !! np = Some r /\ head (lru s') = Some r /\ 0 <= r < 3 /\
    frame s' r = mkFrame np true (new_root left key right) /\
    (forall k, 0 <= k -> k <> r -> frame s' k = frame s k) /\
    (failbit s = true -> stream s' = stream s) /\
    (forall q k, pageTable s' !! q = Some k -> q = np \/ exists k', pageTable s !! q = Some k') /\
    (forall q k, pageTable s !! q = Some k -> q <> np ->
       ((length (lru s) < 3)%nat \/ k <> List.last (lru s) 0) -> pageTable s' !! q = Some k) /\
    (length (lru s) <= length (lru s') <= S (length (lru s)))%nat.
Proof.
  intros Hc -> np.
  destruct (allocate_some s) as [[np' s1] Ea].
  destruct (alloc_frames _ _ _ Hc Ea) as (-> & Hn1 & Hr1 & Hc1 & p & Ht1 & Hh1 & Hp & Hfp & Ho1 & Hs1).
  fold np in Ea, Hn1, Ht1, Hfp |- *.
  pose proof (fetchPage_hit _ _ _ Ht1) as E2.
  set (s2 := set_lru (touch_list p (lru s1)) s1) in *.
  assert (Hc2 : Coh s2) by (destruct (fetch_coh _ _ _ _ Hc1 E2) as (Hc2 & _); exact Hc2).
  assert (Ht2 : pageTable s2 !! np = Some p) by exact Ht1.
  destruct (coh_frame_range _ _ _ Hc2 Ht2) as [Hp0 Hp1].
  assert (Hfp2 : frame s2 p = mkFrame np true zero_node) by exact Hfp.
  unfold insertIntoParent. munfold. rewrite Z.eqb_refl, Ea, E2. fold s2.
  cbn -[upd_frame frame].
  rewrite !upd_frame_upd_frame_eq.
  match goal with |- context [upd_frame p ?H s2] => set (h := H) end.
  exists (set_rootPage np (upd_frame p h s2)), p. split; [reflexivity|].
  split; [apply coh_set_rootPage, coh_upd_frame; [intros; reflexivity|exact Hc2]|].
  split; [reflexivity|]. split; [exact Hn1|]. split; [exact Ht2|].
  split; [unfold s2, touch_list; reflexivity|]. split; [exact Hp|].
  rewrite frame_set_rootPage.
  split; [rewrite frame_upd_eq, Hfp2 by lia; reflexivity|].
  split.
  - intros k Hk Hkp. rewrite frame_set_rootPage, frame_upd_ne by lia. exact (Ho1 k Hk Hkp).
  - split; [intros Hf; exact (Hs1 Hf)|].
    destruct (alloc_table _ _ _ Hc Ea) as (Hsub & Hkeep & Hlen).
    split; [exact Hsub|]. split; [exact Hkeep|].
    assert (L : length (lru s2) = length (lru s1)).
    { change (length (touch_list p (lru s1)) = length (lru s1)).
      assert (Hin2 : In p (lru s1)) by (apply (coh_table _ Hc1) in Ht1; tauto).
      apply Permutation_length, touch_list_perm; [exact (coh_nodup _ Hc1)|exact Hin2]. }
    change (length (lru s) <= length (lru s2) <= S (length (lru s)))%nat. lia.
Qed.


(** ** The node images written by the tree code *)

Lemma split_temp_props n key :
  length (keys n) = 3%nat ->
  Sorted Z.le (split_temp n key) /\ Permutation (split_temp n key) (keys n ++ [key]) /\
  length (split_temp n key) = 4%nat.
Proof.
  intros Hl. unfold split_temp, MAX_KEYS. change (Z.to_nat 3) with 3%nat.
  rewrite (take_ge (keys n) 3) by lia.
  split; [apply sort_keys_sorted|]. split; [apply sort_keys_perm|].
  rewrite (Permutation_length (sort_keys_perm _)), length_app, Hl. reflexivity.
Qed.

Lemma split_old_props n t :
  length (keys n) = 3%nat -> length (children n) = 4%nat -> Sorted Z.le t -> length t = 4%nat ->
  good_node (split_old n t) /\ isLeaf (split_old n t) = isLeaf n /\
  numKeys (split_old n t) = 2 /\ node_keys (split_old n t) = firstn 2 t /\
  links (split_old n t) = links n.
Proof.
  destruct n as [lf k pp ks ch nl]. intros Hk Hc Hs Ht. simpl in *.
  destruct ks as [|a [|b [|c [|? ?]]]]; simpl in Hk; try discriminate.
  destruct t as [|t0 [|t1 [|t2 [|t3 [|? ?]]]]]; simpl in Ht; try discriminate.
  sorted_inv. unfold good_node, split_old, node_keys, MAX_KEYS; cbn.
  repeat split; try lia; auto. change (Z.to_nat 2) with 2%nat. simpl. repeat constructor. assumption.
Qed.

Lemma split_new_props m t :
  length (keys m) = 3%nat -> length (children m) = 4%nat -> Sorted Z.le t -> length t = 4%nat ->
  good_node (split_new m t) /\ isLeaf (split_new m t) = true /\
  numKeys (split_new m t) = 2 /\ node_keys (split_new m t) = skipn 2 t /\
  key_at (split_new m t) 0 = nth 2 t 0 /\ links (split_new m t) = links m.
Proof.
  destruct m as [lf k pp ks ch nl]. intros Hk Hc Hs Ht. simpl in *.
  destruct ks as [|a [|b [|c [|? ?]]]]; simpl in Hk; try discriminate.
  destruct t as [|t0 [|t1 [|t2 [|t3 [|? ?]]]]]; simpl in Ht; try discriminate.
  sorted_inv. unfold good_node, split_new, node_keys, key_at, MAX_KEYS; cbn.
  repeat split; try lia; auto. change (Z.to_nat 2) with 2%nat. simpl. repeat constructor. assumption.
Qed.

Lemma new_root_props left key right :
  good_node (new_root left key right) /\ isLeaf (new_root left key right) = false /\
  numKeys (new_root left key right) = 1 /\ links (new_root left key right) = (0, 0) /\
  keys (new_root left key right) = [key; 0; 0] /\
  children (new_root left key right) = [left; right; 0; 0].
Proof. unfold good_node. cbn. repeat split; discriminate. Qed.

Lemma leaf_insert_good n key :
  good_node n -> isLeaf n = true -> numKeys n < MAX_KEYS ->
  good_node (leaf_insert n key) /\ isLeaf (leaf_insert n key) = true /\
  links (leaf_insert n key) = links n.
Proof.
  intros (Hk & Hc & Hl) Hlf Hn. destruct (Hl Hlf) as [Hn0 Hs].
  destruct (leaf_insert_fields n key) as (E1 & E2 & E3 & E4 & E5 & E6).
  unfold good_node, links. rewrite E1, E2, E3, E4, E5, E6.
  split; [|split; [exact Hlf|reflexivity]].
  split; [exact Hk|]. split; [exact Hc|]. intros _. split; [unfold MAX_KEYS in *; lia|].
  apply leaf_insert_sorted; [exact Hk|lia|exact Hs].
Qed.

(** ** The general invariant [GInv] *)

Lemma keeps_links_refl s : keeps_links s s.
Proof. intros i _. left. reflexivity. Qed.

Lemma keeps_links_trans s1 s2 s3 :
  keeps_links s1 s2 -> keeps_links s2 s3 -> keeps_links s1 s3.
Proof.
  intros H12 H23 i Hi. destruct (H23 i Hi) as [E|E]; [|right; exact E].
  rewrite E. exact (H12 i Hi).
Qed.

Lemma keeps_links_frames s s' :
  (forall k, 0 <= k < 3 -> node_at s' k = node_at s k \/ links (node_at s' k) = (0, 0)) ->
  keeps_links s s'.
Proof. intros H k Hk. destruct (H k Hk) as [E|E]; [left; rewrite E; reflexivity|right; exact E]. Qed.

Lemma ginv_step s s' :
  GInv s -> Coh s' -> stream s' = stream s ->
  (forall k, 0 <= k < 3 -> good_node (node_at s' k)) -> keeps_links s s' -> GInv s'.
Proof.
  intros [Hc Hf Hd Hz Hg Hl] Hc' Hs Hg' Hk.
  unfold stream in Hs. injection Hs as Hd' Hz' Hf'.
  split; try congruence; auto.
  intros i Hi. destruct (Hk i Hi) as [E|E]; unfold links in E; injection E as E1 E2.
  - rewrite E1, E2. exact (Hl i Hi).
  - rewrite E1, E2. split; [right|]; reflexivity.
Qed.

Lemma ginv_good_frame s k : GInv s -> 0 <= k < 3 -> good_node (data (frame s k)).
Proof. intros H Hk. exact (gi_good _ H k Hk). Qed.

Lemma insertIntoParent_ginv s left key right s' :
  GInv s -> insertIntoParent left key right s = Some (tt, s') -> GInv s' /\ keeps_links s s'.
Proof.
  intros Hg E. destruct (decide (left = rootPage s)) as [Hl|Hl].
  - destruct (insertIntoParent_root_frames s left key right (gi_coh _ Hg) Hl)
      as (s1 & r & E1 & Hc1 & _ & _ & _ & _ & Hr & Hfr & Ho & Hs & _).
    rewrite E1 in E. injection E as <-.
    assert (Hnode : forall k, 0 <= k < 3 -> node_at s1 k = node_at s k \/
                      (node_at s1 k = new_root left key right)).
    { intros k Hk. destruct (decide (k = r)) as [->|Hne].
      - right. unfold node_at. rewrite Hfr. reflexivity.
      - left. unfold node_at. rewrite Ho by lia. reflexivity. }
    assert (Hk : keeps_links s s1).
    { apply keeps_links_frames. intros k Hk. destruct (Hnode k Hk) as [E|E]; [left; exact E|right].
      rewrite E. apply new_root_props. }
    split; [|exact Hk]. apply ginv_step with s; auto.
    + apply Hs, (gi_fail _ Hg).
    + intros k Hkr. destruct (Hnode k Hkr) as [E|E]; rewrite E; [apply (gi_good _ Hg k Hkr)|apply new_root_props].
  - rewrite insertIntoParent_other in E by exact Hl. injection E as <-.
    split; [exact Hg|apply keeps_links_refl].
Qed.

Lemma good_lengths m : good_node m -> length (keys m) = 3%nat /\ length (children m) = 4%nat.
Proof. intros (H1 & H2 & _). auto. Qed.

Lemma splitLeaf_ginv s old key i s' :
  GInv s -> pageTable s !! old = Some i -> head (lru s) = Some i ->
  splitLeaf old key s = Some (tt, s') -> GInv s' /\ keeps_links s s'.
Proof.
  intros Hg Hi Hh E. pose proof (gi_coh _ Hg) as Hc.
  assert (Hg1 : forall s1, splitLeaf old key s = insertIntoParent old key 0 s1 -> True) by auto.
  destruct (decide (old = nextPageID s)) as [Heq|Hne].
  - destruct (splitLeaf_same s old key Hc Heq)
      as (s1 & j & E1 & Hc1 & _ & _ & _ & Hj & _ & Hfj & Ho & Hs).
    rewrite E1 in E.
    set (t := split_temp zero_node key) in *.
    destruct (split_temp_props zero_node key eq_refl) as (Hst & _ & Hlt).
    destruct (split_old_props zero_node t eq_refl eq_refl Hst Hlt) as (Hgo & _ & _ & _ & Hlo).
    destruct (good_lengths _ Hgo) as [Hk1 Hc1'].
    destruct (split_new_props _ t Hk1 Hc1' Hst Hlt) as (Hgn & _ & _ & _ & _ & Hln).
    assert (Hnode : forall k, 0 <= k < 3 -> node_at s1 k = node_at s k \/
                      node_at s1 k = split_new (split_old zero_node t) t).
    { intros k Hk. destruct (decide (k = j)) as [->|Hkj].
      - right. unfold node_at. rewrite Hfj. reflexivity.
      - left. unfold node_at. rewrite Ho by lia. reflexivity. }
    assert (Hk : keeps_links s s1).
    { apply keeps_links_frames. intros k Hk. destruct (Hnode k Hk) as [E'|E']; [left; exact E'|right].
      rewrite E', Hln, Hlo. reflexivity. }
    assert (Hg1' : GInv s1).
    { apply ginv_step with s; auto.
      - apply Hs, (gi_fail _ Hg).
      - intros k Hkr. destruct (Hnode k Hkr) as [E'|E']; rewrite E'; [apply (gi_good _ Hg k Hkr)|exact Hgn]. }
    destruct (insertIntoParent_ginv _ _ _ _ _ Hg1' E) as [Hg2 Hk2].
    split; [exact Hg2|]. exact (keeps_links_trans _ _ _ Hk Hk2).
  - destruct (splitLeaf_frames s old key i Hc Hi (head_not_victim _ _ Hc Hh) Hne)
      as (s1 & j & E1 & Hc1 & _ & _ & _ & _ & Hji & Hir & Hjr & _ & Hfi & Hfj & Ho & Hs & _).
    rewrite E1 in E.
    set (n := node_at s i) in *. set (t := split_temp n key) in *.
    destruct (good_lengths _ (gi_good _ Hg i Hir)) as [Hkn Hcn].
    destruct (split_temp_props n key Hkn) as (Hst & _ & Hlt).
    destruct (split_old_props n t Hkn Hcn Hst Hlt) as (Hgo & _ & _ & _ & Hlo).
    destruct (split_new_props zero_node t eq_refl eq_refl Hst Hlt) as (Hgn & _ & _ & _ & _ & Hln).
    assert (Hnode : forall k, 0 <= k < 3 ->
              (node_at s1 k = node_at s k \/ node_at s1 k = split_new zero_node t) \/
              (k = i /\ node_at s1 k = split_old n t)).
    { intros k Hk. destruct (decide (k = j)) as [->|Hkj].
      - left. right. unfold node_at. rewrite Hfj. reflexivity.
      - destruct (decide (k = i)) as [->|Hki].
        + right. split; [reflexivity|]. unfold node_at. rewrite Hfi. reflexivity.
        + left. left. unfold node_at. rewrite Ho by lia. reflexivity. }
    assert (Hk : keeps_links s s1).
    { intros k Hk. destruct (Hnode k Hk) as [[E'|E']|[-> E']]; rewrite E'.
      - left. reflexivity.
      - right. rewrite Hln. reflexivity.
      - left. rewrite Hlo. reflexivity. }
    assert (Hg1' : GInv s1).
    { apply ginv_step with s; auto.
      - apply Hs, (gi_fail _ Hg).
      - intros k Hkr. destruct (Hnode k Hkr) as [[E'|E']|[_ E']]; rewrite E';
          [apply (gi_good _ Hg k Hkr)|exact Hgn|exact Hgo]. }
    destruct (insertIntoParent_ginv _ _ _ _ _ Hg1' E) as [Hg2 Hk2].
    split; [exact Hg2|]. exact (keeps_links_trans _ _ _ Hk Hk2).
Qed.

Lemma head_touch_list i l : head (touch_list i l) = Some i.
Proof. reflexivity. Qed.

Lemma insertIntoLeaf_ginv s pid key i s' :
  GInv s -> pageTable s !! pid = Some i -> head (lru s) = Some i -> isLeaf (node_at s i) = true ->
  insertIntoLeaf pid key s = Some (tt, s') -> GInv s' /\ keeps_links s s'.
Proof.
  intros Hg Hi Hh Hl E. pose proof (gi_coh _ Hg) as Hc.
  pose proof (fetchPage_hit _ _ _ Hi) as Ef.
  set (s1 := set_lru (touch_list i (lru s)) s) in *.
  destruct (fetch_coh _ _ _ _ Hc Ef) as (Hc1 & Ht1 & Hh1 & _).
  assert (Hg1 : GInv s1).
  { apply ginv_step with s; auto; [intros k Hk; exact (gi_good _ Hg k Hk)|intros k _; left; reflexivity]. }
  rewrite (insertIntoLeaf_eq _ _ _ _ _ Hc Ef) in E.
  destruct (coh_frame_range _ _ _ Hc Hi) as [Hi0 Hi1]. rewrite (coh_pool _ Hc) in Hi1.
  destruct (Z.ltb_spec (numKeys (node_at s1 i)) MAX_KEYS) as [Hn|Hn].
  - injection E as <-.
    change (node_at s1 i) with (node_at s i) in *.
    destruct (leaf_insert_good (node_at s i) key (gi_good _ Hg i ltac:(lia)) Hl Hn) as (Hgi & _ & Hli).
    assert (Hnode : forall k, 0 <= k < 3 ->
      node_at (upd_frame i (fun fr => set_frame_dirty true
                (set_frame_data (leaf_insert (node_at s i) key) fr)) s1) k =
      if decide (k = i) then leaf_insert (node_at s i) key else node_at s k).
    { intros k Hk. unfold node_at. destruct (decide (k = i)) as [->|Hne].
      - rewrite frame_upd_eq by (try lia; exact (proj2 (coh_frame_range _ _ _ Hc1 Ht1))). reflexivity.
      - rewrite frame_upd_ne by lia. reflexivity. }
    split.
    + apply ginv_step with s1; auto.
      * apply coh_upd_frame; [intros; reflexivity|exact Hc1].
      * intros k Hk. rewrite Hnode by exact Hk. destruct (decide (k = i)); [exact Hgi|].
        apply (gi_good _ Hg k Hk).
      * intros k Hk. left. rewrite Hnode by exact Hk. destruct (decide (k = i)) as [->|]; [exact Hli|reflexivity].
    + intros k Hk. left. rewrite Hnode by exact Hk. destruct (decide (k = i)) as [->|]; [exact Hli|reflexivity].
  - destruct (splitLeaf_ginv s1 pid key i s' Hg1 Ht1 Hh1 E) as [Hg2 Hk2].
    split; [exact Hg2|]. intros k Hk. exact (Hk2 k Hk).
Qed.

Lemma insert_ginv s key s' :
  GInv s -> insert key s = Some (tt, s') -> GInv s' /\ keeps_links s s'.
Proof.
  intros Hg E. unfold insert in E. munfold.
  destruct (findLeaf findLeaf_fuel (rootPage s) key s) as [[c s1]|] eqn:Ef; [|discriminate].
  destruct (findLeaf_failed _ _ _ _ _ _ (gi_coh _ Hg) (gi_fail _ Hg) Ef)
    as (Hc1 & Hs1 & Hn1 & _ & _ & i & Hi & Hh & Hir & Hl).
  assert (Hg1 : GInv s1).
  { apply ginv_step with s; auto.
    - intros k Hk. rewrite Hn1 by lia. apply (gi_good _ Hg k Hk).
    - intros k Hk. left. rewrite Hn1 by lia. reflexivity. }
  destruct (insertIntoLeaf_ginv _ _ _ _ _ Hg1 Hi Hh Hl E) as [Hg2 Hk2].
  split; [exact Hg2|].
  intros k Hk. rewrite <- (Hn1 k ltac:(lia)). exact (Hk2 k Hk).
Qed.

Lemma insert_all_ginv ks s s' :
  GInv s -> insert_all ks s = Some (tt, s') -> GInv s' /\ keeps_links s s'.
Proof.
  revert s. induction ks as [|k ks IH]; intros s Hg E; simpl in E.
  - injection E as <-. split; [exact Hg|apply keeps_links_refl].
  - munfold. destruct (insert k s) as [[[] s1]|] eqn:E1; [|discriminate].
    destruct (insert_ginv _ _ _ Hg E1) as [Hg1 Hk1].
    destruct (IH _ Hg1 E) as [Hg2 Hk2].
    split; [exact Hg2|exact (keeps_links_trans _ _ _ Hk1 Hk2)].
Qed.

Lemma fresh_coh s : fresh_tree = Some s -> Coh s.
Proof.
  intros E. unfold fresh_tree, exec, BPlusTree_init in E. munfold.
  destruct (allocatePage init_engine) as [[r s1]|] eqn:Ea; [|discriminate].
  destruct (coh_allocate _ _ _ coh_init Ea) as (Hc1 & _).
  pose proof (coh_set_rootPage _ r Hc1) as Hc2.
  destruct (fetchPage r (set_rootPage r s1)) as [[f s3]|] eqn:Ef; [|discriminate].
  destruct (fetch_coh _ _ _ _ Hc2 Ef) as (Hc3 & _).
  injection E as <-.
  repeat (apply coh_upd_frame; [intros; reflexivity|]). exact Hc3.
Qed.

Lemma fresh_ginv s : fresh_tree = Some s -> GInv s.
Proof.
  intros E. pose proof (fresh_coh s E) as Hc.
  vm_compute in E. injection E as <-.
  split; [exact Hc|reflexivity|reflexivity|reflexivity| |].
  - intros i Hi. assert (i = 0 \/ i = 1 \/ i = 2) as [-> | [-> | ->]] by lia;
      vm_compute; repeat split; try discriminate; try constructor.
  - intros i Hi. assert (i = 0 \/ i = 1 \/ i = 2) as [-> | [-> | ->]] by lia;
      vm_compute; auto.
Qed.

Lemma tree_after_ginv ks s : tree_after ks = Some s -> GInv s.
Proof.
  unfold tree_after, exec. destruct fresh_tree as [s0|] eqn:E0; [|discriminate].
  destruct (insert_all ks s0) as [[[] s1]|] eqn:E; [|discriminate].
  intros H. injection H as <-.
  exact (proj1 (insert_all_ginv _ _ _ (fresh_ginv _ E0) E)).
Qed.

Lemma ginv_view s p m :
  GInv s -> view s p = Some m -> exists i, pageTable s !! p = Some i /\ 0 <= i < 3 /\ m = node_at s i.
Proof.
  intros Hg Hv. unfold view in Hv.
  destruct (pageTable s !! p) as [i|] eqn:Ep.
  - injection Hv as <-. exists i. split; [reflexivity|]. split; [|reflexivity].
    destruct (coh_frame_range _ _ _ (gi_coh _ Hg) Ep) as [H0 H1].
    rewrite (coh_pool _ (gi_coh _ Hg)) in H1. lia.
  - rewrite disk_image_failed in Hv by exact (gi_fail _ Hg). discriminate.
Qed.


(** ** The two shapes of the tree *)

Lemma node_at_upd s i g k :
  0 <= i < 3 -> length (pool s) = 3%nat -> 0 <= k ->
  node_at (upd_frame i g s) k = if decide (k = i) then data (g (frame s i)) else node_at s k.
Proof.
  intros Hi Hp Hk. unfold node_at. destruct (decide (k = i)) as [->|Hne].
  - rewrite frame_upd_eq by lia. reflexivity.
  - rewrite frame_upd_ne by lia. reflexivity.
Qed.

Lemma fetch_mru_failed s q r pid f s' :
  Coh s -> failbit s = true -> pageTable s !! q = Some r -> head (lru s) = Some r -> q <> pid ->
  fetchPage pid s = Some (f, s') ->
  f <> r /\ 0 <= f < 3 /\ pageTable s' !! q = Some r /\ pageTable s' !! pid = Some f /\
  (exists l', lru s' = f :: r :: l') /\ Coh s' /\ stream s' = stream s /\
  (forall k, 0 <= k -> node_at s' k = node_at s k) /\
  nextPageID s' = nextPageID s /\ rootPage s' = rootPage s /\
  (forall p k, pageTable s' !! p = Some k -> p = pid \/ exists k', pageTable s !! p = Some k').
Proof.
  intros Hc Hfb Hq Hh Hne Ef.
  destruct (fetch_coh _ _ _ _ Hc Ef) as (Hc' & Ht' & _ & Hn' & Hr').
  destruct (fetch_frames _ _ _ _ Hc Ef) as (Hf & _ & Hs).
  destruct (Hs Hfb) as [Hs' Hnd].
  pose proof (fetch_keeps _ _ _ _ _ _ Hc Hq Hh Hne Ef) as Hq'.
  assert (Hfr : f <> r) by (apply (coh_other_frame _ _ _ _ _ Hc' Ht' Hq'); congruence).
  destruct (lru s) as [|a l] eqn:El; [discriminate|]. injection Hh as ->.
  split; [exact Hfr|]. split; [exact Hf|]. split; [exact Hq'|]. split; [exact Ht'|].
  split; [exact (fetch_second _ _ _ _ _ _ Hc El Hfr Ef)|].
  split; [exact Hc'|]. split; [exact Hs'|]. split; [exact Hnd|].
  split; [exact Hn'|]. split; [exact Hr'|].
  exact (fetch_table_sub _ _ _ _ Hc Ef).
Qed.

Lemma child_index_root k key :
  child_index_from (keys (root_node k)) 0 (numKeys (root_node k)) key = if key >=? k then 1 else 0.
Proof. cbn. destruct (key >=? k); reflexivity. Qed.

(** A search from the internal root on page 2 takes one child by the
    single key of the root and stops there: the child's frame holds leaf
    bytes. *)
Lemma findLeaf_root2 n s key r k :
  GInv s -> pageTable s !! 2 = Some r -> node_at s r = root_node k ->
  (forall i, 0 <= i < 3 -> i <> r -> isLeaf (node_at s i) = true) ->
  let c := if key >=? k then 1 else 0 in
  exists f s2, findLeaf (S (S n)) 2 key s = Some (c, s2) /\
    Coh s2 /\ stream s2 = stream s /\ (forall k, 0 <= k -> node_at s2 k = node_at s k) /\
    nextPageID s2 = nextPageID s /\ rootPage s2 = rootPage s /\
    pageTable s2 !! 2 = Some r /\ pageTable s2 !! c = Some f /\ f <> r /\ 0 <= f < 3 /\
    (exists l', lru s2 = f :: r :: l') /\
    (forall q i, pageTable s2 !! q = Some i -> q = c \/ exists i', pageTable s !! q = Some i').
Proof.
  intros Hg Hr Hroot Hleaf c.
  pose proof (gi_coh _ Hg) as Hc.
  pose proof (fetchPage_hit _ _ _ Hr) as E1.
  set (s1 := set_lru (touch_list r (lru s)) s) in *.
  destruct (fetch_coh _ _ _ _ Hc E1) as (Hc1 & Ht1 & Hh1 & _).
  assert (Hc2 : c <> 2) by (unfold c; destruct (key >=? k); discriminate).
  destruct (fetch_some c s1) as [[f s2] E2].
  destruct (fetch_mru_failed _ _ _ _ _ _ Hc1 (gi_fail _ Hg) Ht1 Hh1 (not_eq_sym Hc2) E2)
    as (Hfr & Hf & Ht2 & Hc2' & Hl2 & Hco2 & Hs2 & Hn2 & Hx2 & Hrt2 & Hsub).
  exists f, s2.
  assert (Ef : findLeaf (S (S n)) 2 key s = Some (c, s2)).
  { cbn [findLeaf]. munfold. rewrite E1.
    change (node_at s1 r) with (node_at s r). rewrite Hroot.
    cbn [isLeaf root_node new_root set_numKeys set_child set_key set_isLeaf zero_node].
    replace (nth _ _ 0) with c by (unfold c; cbn; destruct (key >=? k); reflexivity).
    rewrite E2. rewrite Hn2 by lia. change (node_at s1 f) with (node_at s f).
    rewrite (Hleaf f Hf Hfr). reflexivity. }
  split; [exact Ef|]. split; [exact Hco2|]. split; [exact Hs2|].
  split; [intros q Hq; rewrite Hn2 by exact Hq; reflexivity|].
  split; [exact Hx2|]. split; [exact Hrt2|]. split; [exact Ht2|]. split; [exact Hc2'|].
  split; [exact Hfr|]. split; [exact Hf|]. split; [exact Hl2|].
  exact Hsub.
Qed.

Lemma touch_list_head f l : List.NoDup (f :: l) -> touch_list f (f :: l) = f :: l.
Proof.
  intros Hnd. inversion Hnd as [|? ? Hni _]; subst.
  unfold touch_list. simpl. rewrite Z.eqb_refl. simpl. rewrite filter_notin by exact Hni. reflexivity.
Qed.

Lemma wrap32_id z : INT_MIN <= z <= INT_MAX -> wrap32 z = z.
Proof. unfold wrap32, INT_MIN, INT_MAX. intros H. rewrite Z.mod_small by lia. lia. Qed.

Lemma not_victim_second s f r l :
  Coh s -> lru s = f :: r :: l -> (length (lru s) < 3)%nat \/ r <> List.last (lru s) 0.
Proof.
  intros Hc El. pose proof (coh_nodup _ Hc) as Hnd. rewrite El in Hnd |- *.
  destruct l as [|y l]; [left; simpl; lia|right].
  inversion Hnd as [|? ? _ Hnd1]; subst. inversion Hnd1 as [|? ? Hni _]; subst.
  change (List.last (f :: r :: y :: l) 0) with (List.last (r :: y :: l) 0).
  pose proof (last_in_tail r (y :: l) ltac:(discriminate)) as Hin.
  intros E. rewrite <- E in Hin. contradiction.
Qed.

(** An insert into the two-level tree: the leaf found is changed in its
    frame, or split into its frame and a frame of the new page; the split
    does not reach the root, whose frame stays resident and unchanged. *)
Lemma insert_rinv2 s key s' :
  RInv s -> rootPage s = 2 -> nextPageID s + 1 <= INT_MAX -> insert key s = Some (tt, s') ->
  RInv s' /\ nextPageID s <= nextPageID s' <= nextPageID s + 1.
Proof.
  intros Hri Hrt Hb E.
  destruct Hri as [Hg Hpg Hsh].
  pose proof (gi_coh _ Hg) as Hc.
  destruct (insert_ginv _ _ _ Hg E) as [Hg' _].
  destruct Hsh as [(Hr0 & _)|(_ & Hn3 & r & k & Hr & Hroot & Hleaf)]; [congruence|].
  destruct (findLeaf_root2 62 s key r k Hg Hr Hroot Hleaf)
    as (f & s2 & Ef & Hc2 & Hs2 & Hn2 & Hx2 & Hrt2 & Ht2r & Ht2c & Hfr & Hf & (l' & Hl2) & Hsub2).
  set (c := if key >=? k then 1 else 0) in *.
  assert (Hc01 : c = 0 \/ c = 1) by (unfold c; destruct (key >=? k); auto).
  unfold insert in E. munfold. rewrite Hrt in E. change findLeaf_fuel with (S (S 62)) in E.
  rewrite Ef in E.
  pose proof (fetchPage_hit _ _ _ Ht2c) as E3.
  rewrite (insertIntoLeaf_eq _ _ _ _ _ Hc2 E3) in E.
  set (s3 := set_lru (touch_list f (lru s2)) s2) in *.
  assert (Hl3 : lru s3 = f :: r :: l').
  { change (touch_list f (lru s2) = f :: r :: l'). rewrite Hl2. apply touch_list_head.
    rewrite <- Hl2. exact (coh_nodup _ Hc2). }
  destruct (fetch_coh _ _ _ _ Hc2 E3) as (Hc3 & Ht3c & Hh3 & _).
  assert (Ht3r : pageTable s3 !! 2 = Some r) by exact Ht2r.
  assert (Hn3' : forall q, 0 <= q -> node_at s3 q = node_at s q) by exact Hn2.
  assert (Hpool : length (pool s3) = 3%nat) by exact (coh_pool _ Hc3).
  assert (Hnx3 : nextPageID s3 = nextPageID s) by exact Hx2.
  assert (Hrt3 : rootPage s3 = 2) by (change (rootPage s2 = 2); congruence).
  assert (Hr3 : 0 <= r < 3).
  { destruct (coh_frame_range _ _ _ Hc3 Ht3r) as [H0 H1]. rewrite Hpool in H1. lia. }
  assert (Hgf : good_node (node_at s3 f)) by (rewrite Hn3' by lia; exact (gi_good _ Hg f Hf)).
  assert (Hlf : isLeaf (node_at s3 f) = true) by (rewrite Hn3' by lia; exact (Hleaf f Hf Hfr)).
  assert (Hpages3 : forall q i, pageTable s3 !! q = Some i -> 0 <= q < nextPageID s).
  { intros q i Hq. destruct (Hsub2 q i Hq) as [->|(i' & Hi')]; [lia|exact (Hpg _ _ Hi')]. }
  destruct (Z.ltb_spec (numKeys (node_at s3 f)) MAX_KEYS) as [Hlt|Hge].
  - injection E as <-.
    destruct (leaf_insert_good _ key Hgf Hlf Hlt) as (_ & Hli & _).
    rewrite nextPageID_upd, Hnx3.
    split; [split|lia].
    + exact Hg'.
    + intros q i Hq. rewrite pageTable_upd in Hq. rewrite nextPageID_upd, Hnx3. exact (Hpages3 q i Hq).
    + right. rewrite rootPage_upd, nextPageID_upd, Hnx3, Hrt3.
      split; [reflexivity|]. split; [exact Hn3|].
      exists r, k. rewrite pageTable_upd. split; [exact Ht3r|].
      split.
      * rewrite node_at_upd by (auto; lia). rewrite decide_False by congruence.
        rewrite Hn3' by lia. exact Hroot.
      * intros i Hi Hir. rewrite node_at_upd by (auto; lia).
        destruct (decide (i = f)) as [->|Hif]; [exact Hli|].
        rewrite Hn3' by lia. exact (Hleaf i Hi Hir).
  - assert (Hv := head_not_victim _ _ Hc3 Hh3).
    assert (Hcn : c <> nextPageID s3) by lia.
    destruct (splitLeaf_frames s3 c key f Hc3 Ht3c Hv Hcn)
      as (s4 & j & E4 & Hc4 & Hn4 & Hr4 & Ht4c & Ht4j & Hjf & Hf' & Hj & Hh4 & Hff & Hfj & Ho
          & _ & Hsub4 & Hkeep4 & _).
    rewrite E4 in E. rewrite insertIntoParent_other in E by (rewrite Hr4, Hrt3; lia).
    injection E as <-.
    rewrite Hnx3 in Hn4, Ht4j, Hfj, Hsub4, Hkeep4.
    assert (Hnb : wrap32 (nextPageID s + 1) = nextPageID s + 1)
      by (apply wrap32_id; unfold INT_MIN; lia).
    rewrite Hnb in Hn4.
    assert (Ht4r : pageTable s4 !! 2 = Some r).
    { apply (Hkeep4 2 r Ht3r); [lia|]. exact (not_victim_second _ _ _ _ Hc3 Hl3). }
    assert (Hrj : r <> j) by (apply (coh_other_frame _ _ _ _ _ Hc4 Ht4r Ht4j); lia).
    set (n := node_at s3 f) in *. set (t := split_temp n key) in *.
    destruct (good_lengths _ Hgf) as [Hkn Hcn'].
    destruct (split_temp_props n key Hkn) as (Hst & _ & Hlt).
    destruct (split_old_props n t Hkn Hcn' Hst Hlt) as (_ & Hlo & _).
    destruct (split_new_props zero_node t eq_refl eq_refl Hst Hlt) as (_ & Hln & _).
    split; [split|lia].
    + exact Hg'.
    + intros q i Hq. rewrite Hn4. destruct (Hsub4 q i Hq) as [->|(i' & Hi')]; [lia|].
      pose proof (Hpages3 _ _ Hi'). lia.
    + right. rewrite Hr4, Hrt3, Hn4. split; [reflexivity|]. split; [lia|].
      exists r, k. split; [exact Ht4r|].
      assert (Hnode : forall i, 0 <= i -> i <> f -> i <> j -> node_at s4 i = node_at s i).
      { intros i Hi Hif Hij. unfold node_at. rewrite Ho by auto. exact (Hn3' i Hi). }
      split; [rewrite Hnode by lia; exact Hroot|].
      intros i Hi Hir.
      destruct (decide (i = f)) as [->|Hif].
      * unfold node_at. rewrite Hff. cbn [data]. rewrite Hlo. exact Hlf.
      * destruct (decide (i = j)) as [->|Hij].
        -- unfold node_at. rewrite Hfj. cbn [data]. exact Hln.
        -- rewrite Hnode by lia. exact (Hleaf i Hi Hir).
Qed.

(** An insert into the single leaf root: the leaf is changed in frame 0,
    or the first split makes the leaf 1 and the internal root 2 over the
    leaves 0 and 1. *)
Lemma insert_rinv1 s key s' :
  RInv s -> rootPage s = 0 -> insert key s = Some (tt, s') ->
  RInv s' /\ nextPageID s <= nextPageID s' <= nextPageID s + 2.
Proof.
  intros Hri Hrt E.
  destruct Hri as [Hg Hpg Hsh].
  pose proof (gi_coh _ Hg) as Hc.
  destruct (insert_ginv _ _ _ Hg E) as [Hg' _].
  destruct Hsh as [(_ & Hn1 & Hl0 & Ht0 & Hleaf0)|(Hr2 & _)]; [|congruence].
  pose proof (fetchPage_hit _ _ _ Ht0) as E1.
  set (s1 := set_lru (touch_list 0 (lru s)) s) in *.
  assert (Ef : findLeaf findLeaf_fuel 0 key s = Some (0, s1)).
  { change findLeaf_fuel with (S 63). cbn [findLeaf]. munfold. rewrite E1.
    change (node_at s1 0) with (node_at s 0). rewrite Hleaf0. reflexivity. }
  unfold insert in E. munfold. rewrite Hrt, Ef in E.
  destruct (fetch_coh _ _ _ _ Hc E1) as (Hc1 & Ht1 & _).
  pose proof (fetchPage_hit _ _ _ Ht1) as E2.
  rewrite (insertIntoLeaf_eq _ _ _ _ _ Hc1 E2) in E.
  set (s2 := set_lru (touch_list 0 (lru s1)) s1) in *.
  assert (Hl2 : lru s2 = [0]) by (change (touch_list 0 (touch_list 0 (lru s)) = [0]); rewrite Hl0; reflexivity).
  destruct (fetch_coh _ _ _ _ Hc1 E2) as (Hc2 & Ht2 & _).
  assert (Hpool : length (pool s2) = 3%nat) by exact (coh_pool _ Hc2).
  assert (Hgf : good_node (node_at s2 0)) by exact (gi_good _ Hg 0 ltac:(lia)).
  assert (Hlf : isLeaf (node_at s2 0) = true) by exact Hleaf0.
  assert (Hnx2 : nextPageID s2 = 1) by exact Hn1.
  assert (Hrt2 : rootPage s2 = 0) by exact Hrt.
  destruct (Z.ltb_spec (numKeys (node_at s2 0)) MAX_KEYS) as [Hlt|Hge].
  - injection E as <-.
    destruct (leaf_insert_good _ key Hgf Hlf Hlt) as (_ & Hli & _).
    rewrite nextPageID_upd, Hnx2, Hn1.
    split; [split|lia].
    + exact Hg'.
    + intros q i Hq. rewrite pageTable_upd in Hq. rewrite nextPageID_upd, Hnx2, <- Hn1.
      exact (Hpg q i Hq).
    + left. rewrite rootPage_upd, nextPageID_upd, lru_upd, pageTable_upd, Hnx2, Hrt2, Hl2.
      do 3 (split; [reflexivity|]). split; [exact Ht2|].
      rewrite node_at_upd by (auto; lia). rewrite decide_True by reflexivity. exact Hli.
  - assert (Hv : (length (lru s2) < 3)%nat \/ 0 <> List.last (lru s2) 0) by (left; rewrite Hl2; simpl; lia).
    assert (Hcn : 0 <> nextPageID s2) by lia.
    destruct (splitLeaf_frames s2 0 key 0 Hc2 Ht2 Hv Hcn)
      as (s3 & j & E3 & Hc3 & Hn3 & Hr3 & Ht3o & Ht3j & Hj0 & _ & Hj & _ & Hf0 & Hfj & Ho3
          & _ & Hsub3 & _ & Hlen3).
    rewrite Hl2 in Hlen3. simpl in Hlen3.
    rewrite Hnx2 in E3, Hn3, Ht3j, Hfj, Hsub3. change (wrap32 (1 + 1)) with 2 in Hn3.
    rewrite E3 in E.
    destruct (insertIntoParent_root_frames s3 0 (nth 2 (split_temp (node_at s2 0) key) 0) 1 Hc3
                ltac:(rewrite Hr3, Hrt2; reflexivity))
      as (s4 & r & E4 & Hc4 & Hrt4 & Hn4 & Ht4r & _ & Hr & Hfr & Ho4 & _ & Hsub4 & Hkeep4 & _).
    rewrite E4 in E. injection E as <-.
    rewrite Hn3 in Hrt4, Hn4, Ht4r, Hfr, Hsub4, Hkeep4. change (wrap32 (2 + 1)) with 3 in Hn4.
    assert (Ht4o : pageTable s4 !! 0 = Some 0) by (apply (Hkeep4 0 0 Ht3o); [lia|left; lia]).
    assert (Ht4j : pageTable s4 !! 1 = Some j) by (apply (Hkeep4 1 j Ht3j); [lia|left; lia]).
    assert (Hr0 : r <> 0) by (apply (coh_other_frame _ _ _ _ _ Hc4 Ht4r Ht4o); lia).
    assert (Hrj : r <> j) by (apply (coh_other_frame _ _ _ _ _ Hc4 Ht4r Ht4j); lia).
    set (n := node_at s2 0) in *. set (t := split_temp n key) in *.
    destruct (good_lengths _ Hgf) as [Hkn Hcn'].
    destruct (split_temp_props n key Hkn) as (Hst & _ & Hlt).
    destruct (split_old_props n t Hkn Hcn' Hst Hlt) as (_ & Hlo & _).
    destruct (split_new_props zero_node t eq_refl eq_refl Hst Hlt) as (_ & Hln & _).
    rewrite Hn4, Hn1.
    split; [split|lia].
    + exact Hg'.
    + intros q i Hq. rewrite Hn4. destruct (Hsub4 q i Hq) as [->|(i' & Hi')]; [lia|].
      destruct (Hsub3 q i' Hi') as [->|(i'' & Hi'')]; [lia|].
      pose proof (Hpg q i'' Hi''). lia.
    + right. rewrite Hrt4, Hn4. split; [reflexivity|]. split; [lia|].
      exists r, (nth 2 t 0). split; [exact Ht4r|].
      split; [unfold node_at; rewrite Hfr; reflexivity|].
      intros i Hi Hir.
      assert (Hi' : i = 0 \/ i = j) by lia.
      unfold node_at. rewrite Ho4 by lia.
      destruct Hi' as [->| ->].
      * rewrite Hf0. cbn [data]. rewrite Hlo. exact Hlf.
      * rewrite Hfj. cbn [data]. exact Hln.
Qed.

Lemma insert_rinv s key s' :
  RInv s -> nextPageID s + 2 <= INT_MAX -> insert key s = Some (tt, s') ->
  RInv s' /\ nextPageID s <= nextPageID s' <= nextPageID s + 2.
Proof.
  intros Hri Hb E.
  destruct (ri_shape _ Hri) as [(Hr & _)|(Hr & _)].
  - exact (insert_rinv1 _ _ _ Hri Hr E).
  - destruct (insert_rinv2 _ _ _ Hri Hr ltac:(lia) E) as [H1 H2]. split; [exact H1|lia].
Qed.

Lemma insert_all_rinv ks s s' :
  RInv s -> nextPageID s + 2 * Z.of_nat (length ks) <= INT_MAX ->
  insert_all ks s = Some (tt, s') -> RInv s'.
Proof.
  revert s. induction ks as [|k ks IH]; intros s Hri Hb E; simpl in E.
  - injection E as <-. exact Hri.
  - munfold. destruct (insert k s) as [[[] s1]|] eqn:E1; [|discriminate].
    simpl in Hb.
    destruct (insert_rinv _ _ _ Hri ltac:(lia) E1) as [Hr1 Hn1].
    apply (IH s1 Hr1); [lia|exact E].
Qed.

Lemma fresh_rinv s : fresh_tree = Some s -> RInv s /\ nextPageID s = 1.
Proof.
  intros E. pose proof (fresh_ginv s E) as Hg.
  vm_compute in E. injection E as <-.
  split; [|reflexivity].
  split; [exact Hg| |].
  - intros p i Hp.
    assert (Hp' : ({[0 := 0]} : gmap Z Z) !! p = Some i) by exact Hp.
    apply lookup_singleton_Some in Hp' as [<- _]. simpl. lia.
  - left. vm_compute. repeat split.
Qed.

Lemma tree_after_rinv ks s :
  Z.of_nat (length ks) < 2 ^ 30 -> tree_after ks = Some s -> RInv s.
Proof.
  intros Hb. unfold tree_after, exec. destruct fresh_tree as [s0|] eqn:E0; [|discriminate].
  destruct (insert_all ks s0) as [[[] s1]|] eqn:E; [|discriminate].
  intros H. injection H as <-.
  destruct (fresh_rinv _ E0) as [Hr0 Hn0].
  apply (insert_all_rinv ks _ _ Hr0); [|exact E].
  rewrite Hn0. unfold INT_MAX. lia.
Qed.







Lemma tree_of_L5 : tree_after [10; 20; 30; 40; 50] = Some (tree_of [10; 20; 30; 40; 50]).
Proof. vm_compute. reflexivity. Qed.


(** C7: [findLeaf (S fuel) p key] fetches page [p]; if the node is a leaf
    it returns [p]; otherwise it recurses into [children[i]], where [i] is
    the first index with [key < keys[i]] ([numKeys] when there is none):
    every key before [i] is [<= key], so a key equal to a stored key goes
    to the right of it.  On a resident page the node is the frame's. *)
Theorem findLeaf_route s p key fuel f s1 :
  fetchPage p s = Some (f, s1) ->
  let n := node_at s1 f in
  let i := first_index_gt (node_keys n) key in
  (i <= length (node_keys n))%nat /\
  (forall j, (j < i)%nat -> nth j (node_keys n) 0 <= key) /\
  ((i < length (node_keys n))%nat -> key < nth i (node_keys n) 0) /\
  findLeaf (S fuel) p key s =
    (if isLeaf n then Some (p, s1) else findLeaf fuel (nth i (children n) 0) key s1) /\
  (forall j, pageTable s !! p = Some j -> f = j /\ n = node_at s j).
Proof.
  intros Ef n i.
  destruct (first_index_gt_spec (node_keys n) key) as (H1 & H2 & H3).
  split; [exact H1|]. split; [exact H2|]. split; [exact H3|]. split.
  - cbn [findLeaf]. munfold. rewrite Ef. fold n.
    destruct (isLeaf n); [reflexivity|].
    rewrite child_index_node, Nat2Z.id. reflexivity.
  - intros j Hj. rewrite (fetchPage_hit _ _ _ Hj) in Ef. injection Ef as <- <-.
    split; reflexivity.
Qed.

Lemma findLeaf_route_witness :
  findLeaf 6 2 35 (tree_of [10; 20; 30; 40; 50]) =
  findLeaf 5 1 35 (set_lru [2; 1; 0] (tree_of [10; 20; 30; 40; 50])).
Proof.
  assert (Ef : fetchPage 2 (tree_of [10; 20; 30; 40; 50]) =
               Some (2, set_lru [2; 1; 0] (tree_of [10; 20; 30; 40; 50]))) by (vm_compute; reflexivity).
  destruct (findLeaf_route _ _ 35 5 _ _ Ef) as (_ & _ & _ & E & _).
  rewrite E. vm_compute. reflexivity.
Defined.



Lemma tree_of_L3 : tree_after [10; 20; 30] = Some (tree_of [10; 20; 30]).
Proof. vm_compute. reflexivity. Qed.













(** C6: [evict] with fewer than [BUFFER_CAPACITY] occupied frames returns
    the occupancy and changes nothing.  With a full cache it takes the LRU
    tail, calls [writeDisk] on its page exactly when the frame is dirty,
    erases the page from the page table and pops it from the LRU list; on
    a good stream the write stores the frame at the page's offset.  But the
    stream of a tree is failed from the constructor on (its first read on
    the truncated file is short), so [writeDisk] stores nothing: after 10,
    20, 30, 40, 50, 60 the dirty page 0 is evicted and written, yet the
    file is empty and page 0 cannot be read back. *)
Theorem evict_writeback_lost :
  (forall s, (length (lru s) < 3)%nat -> evict s = Some (Z.of_nat (length (lru s)), s)) /\
  (forall s, Coh s -> length (lru s) = 3%nat ->
     let idx := List.last (lru s) 0 in
     let f := frame s idx in
     exists s', evict s = Some (idx, s') /\
       events s' = events s ++ EvEvict (pageID f) :: (if dirty f then [EvDiskWrite (pageID f)] else []) /\
       pageTable s' = delete (pageID f) (pageTable s) /\ lru s' = removelast (lru s) /\
       pool s' = pool s /\ pageTable s !! pageID f = Some idx /\
       (failbit s = false -> 0 <= page_offset (pageID f) -> dirty f = true ->
          dbFile s' = <[page_offset (pageID f) := data f]> (dbFile s)) /\
       (failbit s = true -> stream s' = stream s)) /\
  (exists s0, fresh_tree = Some s0 /\ failbit s0 = true /\ dbFile s0 = ∅ /\ fileSize s0 = 0) /\
  (exists s, tree_after [10; 20; 30; 40; 50; 60] = Some s /\
     events s = [EvEvict 0; EvDiskWrite 0] /\
     dbFile s = ∅ /\ fileSize s = 0 /\ failbit s = true /\ view s 0 = None).
Proof.
  split; [exact evict_notfull|].
  split.
  - intros s Hc H3 idx f.
    exists (evicted s). split; [apply evict_full; lia|].
    destruct (evicted_fields s) as (Hp & Hl & Ht & _ & _ & Hs).
    fold idx f in Hp, Hl, Ht, Hs.
    assert (Hin : In idx (lru s)).
    { unfold idx. destruct (lru s) as [|a l] eqn:El; [simpl in H3; lia|].
      right. apply last_in_tail. intros ->. simpl in H3. lia. }
    split.
    { unfold evicted. fold idx f. destruct (dirty f); simpl.
      - destruct (disk_write_fields (pageID f) (data f)
                    (add_event (EvDiskWrite (pageID f)) (add_event (EvEvict (pageID f)) s)))
          as (_ & _ & _ & _ & _ & He). rewrite He. simpl. rewrite <- app_assoc. reflexivity.
      - reflexivity. }
    split; [exact Ht|]. split; [exact Hl|]. split; [exact Hp|].
    split; [apply (coh_table _ Hc); split; [exact Hin|reflexivity]|].
    split.
    + intros Hfb Ho Hd. rewrite Hd in Hs. unfold stream, disk_write in Hs. cbv zeta in Hs.
      rewrite Hfb in Hs. replace (page_offset (pageID f) <? 0) with false in Hs
        by (symmetry; apply Z.ltb_ge; exact Ho).
      cbn [set_fileSize set_dbFile dbFile fileSize failbit] in Hs. injection Hs as Hd' _ _. exact Hd'.
    + intros Hfb. rewrite Hs. destruct (dirty f); [|reflexivity].
      rewrite disk_write_failed by exact Hfb. reflexivity.
  - split.
    + eexists. split; [vm_compute; reflexivity|]. vm_compute. repeat split.
    + eexists. split; [vm_compute; reflexivity|]. vm_compute. repeat split.
Qed.

(** C1: [insertIntoParent left key right] with [left] different from the
    current root does nothing: the state (root reference, every page,
    the cache) is returned unchanged.  In the gap scenario (10, 20, 30,
    40, 50, 60 on a fresh tree) the second split, on the non-root leaf 1,
    allocates page 3 holding [50; 60]; the root stays page 2 with the
    single key 30, and page 3 is not reachable from the root. *)
Theorem insertIntoParent_nonroot_noop :
  (forall (s : Engine) (left key right : Z),
     left <> rootPage s -> insertIntoParent left key right s = Some (tt, s)) /\
  (exists s, tree_after [10; 20; 30; 40; 50; 60] = Some s /\
     nextPageID s = 4 /\ rootPage s = 2 /\
     option_map node_keys (view s 2) = Some [30] /\
     option_map node_keys (view s 1) = Some [30; 40] /\
     option_map isLeaf (view s 3) = Some true /\
     option_map node_keys (view s 3) = Some [50; 60] /\
     reach 10 s (rootPage s) = [2; 0; 1] /\
     ~ In 3 (reach 10 s (rootPage s))).
Proof.
  split.
  - intros s left key right Hne. exact (insertIntoParent_other s left key right Hne).
  - eexists. split; [vm_compute; reflexivity|].
    vm_compute. repeat split; auto. intros [H|[H|[H|[]]]]; discriminate.
Qed.

Lemma insertIntoParent_nonroot_noop_witness :
  insertIntoParent 5 7 9 (set_rootPage 2 init_engine) = Some (tt, set_rootPage 2 init_engine).
Proof.
  apply (proj1 insertIntoParent_nonroot_noop). simpl. lia.
Defined.

(** C2: the demonstration sequence 10, 20, 30, 40, 50 on a fresh tree
    (PAGE_SIZE 4096, BUFFER_CAPACITY 3, MAX_KEYS 3) ends with leaf page 0
    holding [10; 20], leaf page 1 holding [30; 40; 50], the internal root
    on page 2 with the single key 30 and children [0; 1], three pages
    allocated (ids 0, 1, 2) and no eviction. *)
Theorem demo_sequence_final_state :
  exists s, tree_after [10; 20; 30; 40; 50] = Some s /\
    option_map isLeaf (view s 0) = Some true /\
    option_map node_keys (view s 0) = Some [10; 20] /\
    option_map isLeaf (view s 1) = Some true /\
    option_map node_keys (view s 1) = Some [30; 40; 50] /\
    rootPage s = 2 /\
    option_map isLeaf (view s 2) = Some false /\
    option_map node_keys (view s 2) = Some [30] /\
    option_map (fun n => firstn (S (Z.to_nat (numKeys n))) (children n)) (view s 2) = Some [0; 1] /\
    nextPageID s = 3 /\
    evictions s = 0%nat.
Proof.
  eexists. split; [vm_compute; reflexivity|].
  vm_compute. repeat split.
Qed.

(** C4 (counterexample): after inserting 10 twice into a fresh tree, the
    leaf 0 holds the keys [10; 10], which are not in strictly ascending
    order. *)
Theorem leaf_keys_not_strict :
  exists s, tree_after [10; 10] = Some s /\
    exists m, view s 0 = Some m /\ isLeaf m = true /\ node_keys m = [10; 10] /\
      ~ Sorted Z.lt (node_keys m).
Proof.
  eexists. split; [vm_compute; reflexivity|].
  eexists. split; [vm_compute; reflexivity|].
  split; [reflexivity|]. split; [reflexivity|].
  cbn. intros H. inversion H as [|? ? _ Hh]; subst.
  inversion Hh; lia.
Qed.

(** C4 (amended): after any sequence of inserts on a fresh tree, every
    leaf holds between 0 and [MAX_KEYS] keys, in non-decreasing order
    (equal keys are kept side by side). *)
Theorem leaf_order_invariant ks s :
  tree_after ks = Some s ->
  forall p m, view s p = Some m -> isLeaf m = true ->
    0 <= numKeys m <= MAX_KEYS /\ Sorted Z.le (node_keys m).
Proof.
  intros E p m Hv Hl. pose proof (tree_after_ginv _ _ E) as Hg.
  destruct (ginv_view _ _ _ Hg Hv) as (i & _ & Hi & ->).
  destruct (gi_good _ Hg i Hi) as (_ & _ & H).
  exact (H Hl).
Qed.

Lemma leaf_order_invariant_witness :
  0 <= numKeys (mkNode true 3 0 [30; 40; 50] [0; 0; 0; 0] 0) <= MAX_KEYS /\
  Sorted Z.le (node_keys (mkNode true 3 0 [30; 40; 50] [0; 0; 0; 0] 0)).
Proof.
  apply (leaf_order_invariant [10; 20; 30; 40; 50] (tree_of [10; 20; 30; 40; 50]) ltac:(vm_compute; reflexivity) 1);
    [vm_compute; reflexivity | reflexivity].
Defined.

(** C5: after any sequence of [fetchPage] / [allocatePage] / [markDirty]
    calls on a fresh buffer manager, the page table's domain is the set of
    page ids of the occupied frames (those on the LRU list), each page
    occupies exactly one frame, the table and the LRU list hold at most
    [BUFFER_CAPACITY] entries, the LRU list has no repetition and its
    members are exactly the frames the page table maps to (a bijection),
    and the unoccupied frames are empty ([pageID = -1]). *)
Theorem cache_coherence (os : list BMOp) (s : Engine) :
  exec (run_ops os) init_engine = Some s ->
  (forall p, is_Some (pageTable s !! p) <-> exists i, In i (lru s) /\ pageID (frame s i) = p) /\
  (forall p i, pageTable s !! p = Some i -> In i (lru s) /\ pageID (frame s i) = p) /\
  (forall i j, In i (lru s) -> In j (lru s) -> pageID (frame s i) = pageID (frame s j) -> i = j) /\
  (size (pageTable s) <= Z.to_nat BUFFER_CAPACITY)%nat /\
  (length (lru s) <= Z.to_nat BUFFER_CAPACITY)%nat /\
  List.NoDup (lru s) /\
  (forall i, In i (lru s) <-> exists p, pageTable s !! p = Some i) /\
  (forall p q i, pageTable s !! p = Some i -> pageTable s !! q = Some i -> p = q) /\
  (forall i, 0 <= i < BUFFER_CAPACITY -> ~ In i (lru s) -> pageID (frame s i) = -1).
Proof.
  intros He. destruct (run_ops_inv os _ _ coh_init unused_init He) as [Hc Hu].
  destruct Hc as [Hp Hnd Hlen Hr Ht Hs]. unfold BUFFER_CAPACITY. simpl.
  split; [|split; [|split; [|split; [|split; [|split; [|split; [|split]]]]]]].
  - intros p. split.
    + intros [i Hi]. apply Ht in Hi. eauto.
    + intros (i & Hi & Hpi). exists i. apply Ht. auto.
  - intros p i Hi. apply Ht. exact Hi.
  - intros i j Hi Hj Hij.
    assert (pageTable s !! pageID (frame s i) = Some i) by (apply Ht; auto).
    assert (pageTable s !! pageID (frame s i) = Some j) by (apply Ht; auto).
    congruence.
  - lia.
  - lia.
  - exact Hnd.
  - intros i. split.
    + intros Hi. exists (pageID (frame s i)). apply Ht. auto.
    + intros [p Hpi]. apply Ht in Hpi. tauto.
  - intros p q i Hp' Hq'. apply Ht in Hp', Hq'. destruct Hp', Hq'. congruence.
  - intros i Hi Hn. rewrite (Hu i Hi Hn). reflexivity.
Qed.

Lemma cache_coherence_witness :
  exec (run_ops demo_ops) init_engine = Some demo_state /\
  (size (pageTable demo_state) <= Z.to_nat BUFFER_CAPACITY)%nat.
Proof.
  assert (E : exec (run_ops demo_ops) init_engine = Some demo_state) by (vm_compute; reflexivity).
  split; [exact E|].
  exact (proj1 (proj2 (proj2 (proj2 (cache_coherence demo_ops demo_state E))))).
Defined.

Lemma evict_writeback_lost_witness :
  evict init_engine = Some (Z.of_nat (length (lru init_engine)), init_engine).
Proof. apply (proj1 evict_writeback_lost). simpl. lia. Defined.

(** X1: on a buffer hit, [fetchPage] returns the frame the page table
    maps the page to and does no disk I/O: pool, page table, file, events
    and counters are unchanged, and [touch] only moves that frame to the
    front of the LRU list, keeping the other entries in order. *)
Theorem fetchPage_hit_spec s pid idx :
  Coh s -> pageTable s !! pid = Some idx ->
  exists s', fetchPage pid s = Some (idx, s') /\
    pool s' = pool s /\ pageTable s' = pageTable s /\ dbFile s' = dbFile s /\
    events s' = events s /\ nextPageID s' = nextPageID s /\ rootPage s' = rootPage s /\
    lru s' = idx :: List.filter (fun x => negb (x =? idx)) (lru s) /\
    Permutation (lru s') (lru s).
Proof.
  intros Hc Ht. exists (set_lru (touch_list idx (lru s)) s).
  split; [apply fetchPage_hit; exact Ht|]. simpl.
  do 7 (split; [reflexivity|]).
  apply touch_list_perm; [apply (coh_nodup _ Hc)|].
  apply (coh_table _ Hc) in Ht. tauto.
Qed.

Lemma fetchPage_hit_spec_witness :
  exists s', fetchPage 1 (tree_of [10; 20; 30; 40; 50]) = Some (1, s').
Proof.
  destruct (fetchPage_hit_spec (tree_of [10; 20; 30; 40; 50]) 1 1
              (gi_coh _ (tree_after_ginv _ _ tree_of_L5))
              ltac:(vm_compute; reflexivity)) as (s' & E & _).
  exists s'. exact E.
Defined.

(** X2: on a miss with a free frame, [fetchPage] uses the next empty slot
    (index = LRU length) without evicting; the page is mapped to it and
    put at the LRU front, the frame is tagged with the page id and clean,
    and holds the disk image of the page if [readDisk] can read one, else
    its old bytes; no other frame changes, and on a failed stream the file
    and the frame's bytes stay as they were. *)
Theorem fetchPage_miss_free s pid :
  Coh s -> pageTable s !! pid = None -> (length (lru s) < 3)%nat ->
  let i := Z.of_nat (length (lru s)) in
  exists s', fetchPage pid s = Some (i, s') /\
    events s' = events s /\ pageTable s' = <[pid := i]> (pageTable s) /\ lru s' = i :: lru s /\
    frame s' i = mkFrame pid false (match disk_image s pid with Some d => d | None => node_at s i end) /\
    (forall k, 0 <= k -> k <> i -> frame s' k = frame s k) /\
    (failbit s = true -> stream s' = stream s /\ node_at s' i = node_at s i).
Proof.
  intros Hc Hn Hl i.
  pose proof (fetchPage_miss s pid Hn) as E. rewrite evict_notfull in E by exact Hl.
  fold i in E. exists (install pid i s). split; [exact E|].
  destruct (install_fields s pid i) as (_ & Hl' & Ht' & Hd' & _ & _ & Hz' & He' & Hb').
  assert (Hni : ~ In i (lru s)) by (intros Hin; apply (coh_range _ Hc) in Hin; unfold i in Hin; lia).
  assert (Hi0 : 0 <= i) by (unfold i; lia).
  assert (Hi1 : (Z.to_nat i < length (pool s))%nat) by (rewrite (coh_pool _ Hc); unfold i; lia).
  split; [exact He'|]. split; [exact Ht'|]. split; [rewrite Hl'; apply touch_list_notin; exact Hni|].
  split; [rewrite install_frame by (auto; lia); rewrite decide_True by reflexivity; reflexivity|].
  split; [intros k Hk Hki; rewrite install_frame by (auto; lia); rewrite decide_False by exact Hki; reflexivity|].
  intros Hf. rewrite disk_image_failed in Hb' by exact Hf.
  split; [unfold stream; rewrite Hd', Hz', Hb', Hf; reflexivity|].
  unfold node_at. rewrite install_frame by (auto; lia). rewrite decide_True by reflexivity.
  rewrite disk_image_failed by exact Hf. reflexivity.
Qed.

Lemma tree_of_L1 : tree_after [10] = Some (tree_of [10]).
Proof. vm_compute. reflexivity. Qed.

Lemma fetchPage_miss_free_witness :
  exists s', fetchPage 5 (tree_of [10]) = Some (1, s').
Proof.
  destruct (fetchPage_miss_free (tree_of [10]) 5 (gi_coh _ (tree_after_ginv _ _ tree_of_L1))
              ltac:(vm_compute; reflexivity) ltac:(apply Nat.ltb_lt; vm_compute; reflexivity))
    as (s' & E & _).
  exists s'. exact E.
Defined.

(** X3: on a miss with a full cache, [fetchPage] reuses the LRU frame: the
    victim's eviction (and its [writeDisk] exactly when it is dirty) is
    logged, the victim leaves the page table, the requested page is mapped
    to the frame, which moves to the LRU front tagged with the new page id
    and clean; no other frame changes, and on a failed stream the file and
    the frame's bytes (the victim's) stay as they were. *)
Theorem fetchPage_miss_full s pid :
  Coh s -> pageTable s !! pid = None -> length (lru s) = 3%nat ->
  let i := List.last (lru s) 0 in
  let v := frame s i in
  exists s', fetchPage pid s = Some (i, s') /\
    events s' = events s ++ EvEvict (pageID v) :: (if dirty v then [EvDiskWrite (pageID v)] else []) /\
    pageTable s' = <[pid := i]> (delete (pageID v) (pageTable s)) /\
    lru s' = i :: removelast (lru s) /\
    (forall k, 0 <= k -> k <> i -> frame s' k = frame s k) /\
    pageID (frame s' i) = pid /\ dirty (frame s' i) = false /\
    (failbit s = true -> stream s' = stream s /\ node_at s' i = node_at s i).
Proof.
  intros Hc Hn H3 i v.
  pose proof (fetchPage_miss s pid Hn) as E. rewrite evict_full in E by lia.
  fold i in E. exists (install pid i (evicted s)). split; [exact E|].
  destruct (fetch_cases _ _ _ _ Hc E) as [(Hx & _)|[(_ & Hx & _)|(_ & _ & _ & Ht & Hl)]];
    [congruence|lia|].
  destruct (fetch_frames _ _ _ _ Hc E) as (Hi3 & Ho & Hs).
  destruct (install_fields (evicted s) pid i) as (_ & _ & _ & _ & _ & _ & _ & He' & _).
  destruct (fetch_coh _ _ _ _ Hc E) as (Hc' & Ht' & _).
  pose proof (proj1 (coh_table _ Hc' _ _) Ht') as [_ Hpid].
  assert (Hp : (Z.to_nat i < length (pool (evicted s)))%nat)
    by (destruct (evicted_fields s) as (Hp & _); rewrite Hp, (coh_pool _ Hc); lia).
  split.
  { rewrite He'. unfold evicted. fold i v. destruct (dirty v); simpl; [|reflexivity].
    destruct (disk_write_fields (pageID v) (data v)
                (add_event (EvDiskWrite (pageID v)) (add_event (EvEvict (pageID v)) s)))
      as (_ & _ & _ & _ & _ & He). rewrite He. simpl. rewrite <- app_assoc. reflexivity. }
  split; [exact Ht|]. split; [exact Hl|]. split; [exact Ho|]. split; [exact Hpid|].
  split; [rewrite install_frame by (auto; lia); rewrite decide_True by reflexivity; reflexivity|].
  intros Hf. destruct (Hs Hf) as [Hs' Hn']. split; [exact Hs'|]. apply Hn'. lia.
Qed.

Lemma fetchPage_miss_full_witness :
  exists s', fetchPage 7 (tree_of [10; 20; 30; 40; 50]) = Some (0, s').
Proof.
  destruct (fetchPage_miss_full (tree_of [10; 20; 30; 40; 50]) 7
              (gi_coh _ (tree_after_ginv _ _ tree_of_L5))
              ltac:(vm_compute; reflexivity) ltac:(vm_compute; reflexivity)) as (s' & E & _).
  exists s'. exact E.
Defined.

(** X4: on a failed stream, [findLeaf] leaves the file and every frame's
    bytes unchanged, keeps the cache coherent, the counters and the root,
    and returns a page that is resident, in the most recently used frame,
    with leaf bytes. *)
Theorem findLeaf_failed_stream fuel p key s c s' :
  Coh s -> failbit s = true -> findLeaf fuel p key s = Some (c, s') ->
  Coh s' /\ stream s' = stream s /\ (forall k, 0 <= k -> node_at s' k = node_at s k) /\
  nextPageID s' = nextPageID s /\ rootPage s' = rootPage s /\
  exists i, pageTable s' !! c = Some i /\ head (lru s') = Some i /\ 0 <= i < 3 /\
    isLeaf (node_at s' i) = true.
Proof. exact (findLeaf_failed fuel p key s c s'). Qed.

Lemma findLeaf_failed_stream_witness :
  exists s', findLeaf 64 2 35 (tree_of [10; 20; 30; 40; 50]) = Some (1, s') /\
    stream s' = stream (tree_of [10; 20; 30; 40; 50]).
Proof.
  destruct (findLeaf 64 2 35 (tree_of [10; 20; 30; 40; 50])) as [[c s']|] eqn:E;
    [|vm_compute in E; discriminate].
  assert (Hc : c = 1) by (vm_compute in E; congruence). subst c.
  destruct (findLeaf_failed_stream 64 2 35 (tree_of [10; 20; 30; 40; 50]) 1 s'
              (gi_coh _ (tree_after_ginv _ _ tree_of_L5)) ltac:(vm_compute; reflexivity) E)
    as (_ & Hs & _).
  exists s'. split; [reflexivity|exact Hs].
Defined.

Lemma dirty_L5 : forallb (fun j => dirty (frame (tree_of [10; 20; 30; 40; 50]) j))
                   (lru (tree_of [10; 20; 30; 40; 50])) = true.
Proof. vm_compute. reflexivity. Qed.

Lemma cons_L5 : Cons (tree_of [10; 20; 30; 40; 50]).
Proof.
  intros i Hi Hd. pose proof dirty_L5 as Hall.
  rewrite forallb_forall in Hall. specialize (Hall i Hi). rewrite Hd in Hall. discriminate.
Qed.

(** X5: [markDirty] on a page that is not resident does nothing.  On a
    resident page it sets only that frame's dirty flag; applied after a
    write into the frame (the consistency invariant holding for all
    other frames), it restores the consistency invariant and changes no
    page's content, so the write survives a later eviction. *)
Theorem markDirty_spec s pid :
  (pageTable s !! pid = None -> markDirty pid s = Some (tt, s)) /\
  (forall i, Coh s -> Cons_but s i -> pageTable s !! pid = Some i ->
   exists s', markDirty pid s = Some (tt, s') /\
     frame s' i = set_frame_dirty true (frame s i) /\
     (forall j, 0 <= j -> j <> i -> frame s' j = frame s j) /\
     pageTable s' = pageTable s /\ lru s' = lru s /\ dbFile s' = dbFile s /\
     Coh s' /\ Cons s' /\ (forall q, view s' q = view s q)).
Proof.
  split.
  - intros H. rewrite markDirty_eq. unfold mark_dirty_state. rewrite H. reflexivity.
  - intros i Hc Hk Ht.
    exists (upd_frame i (set_frame_dirty true) s).
    rewrite markDirty_eq, (mark_dirty_resident _ _ i) by exact Ht.
    destruct (upd_dirty_view s pid i (set_frame_dirty true) Hc Hk Ht
                (fun _ => eq_refl) (fun _ => eq_refl)) as (Hc' & Hk' & Ht' & Hvp & Hf & Ho).
    destruct (coh_frame_range _ _ _ Hc Ht) as [H0 H1].
    split; [reflexivity|]. split; [exact Hf|].
    split.
    { intros j Hj0 Hj. apply frame_upd_ne; auto. }
    split; [exact Ht'|]. split; [reflexivity|]. split; [reflexivity|].
    split; [exact Hc'|]. split; [exact Hk'|].
    intros q. destruct (decide (q = pid)) as [->|Hq]; [|apply Ho; exact Hq].
    rewrite Hvp. unfold view. rewrite Ht. reflexivity.
Qed.

Lemma markDirty_spec_witness :
  markDirty 9 (tree_of [10; 20; 30; 40; 50]) = Some (tt, tree_of [10; 20; 30; 40; 50]) /\
  exists s', markDirty 0 (tree_of [10; 20; 30; 40; 50]) = Some (tt, s').
Proof.
  destruct (markDirty_spec (tree_of [10; 20; 30; 40; 50]) 0) as [_ Hb].
  destruct (Hb 0 (gi_coh _ (tree_after_ginv _ _ tree_of_L5)) (cons_but_of_cons _ _ cons_L5)
              ltac:(vm_compute; reflexivity)) as (s' & E & _).
  split; [|exists s'; exact E].
  apply (proj1 (markDirty_spec (tree_of [10; 20; 30; 40; 50]) 9)).
  vm_compute. reflexivity.
Defined.

(** X6: under a coherent cache, [allocatePage] returns [nextPageID],
    advances the counter with [int] wrap-around, keeps the root and the
    coherence, puts the new page at the LRU front in a dirty frame holding
    the all-zero page, changes no other frame, and on a failed stream
    leaves the file as it was. *)
Theorem allocatePage_frames s pid s' :
  Coh s -> allocatePage s = Some (pid, s') ->
  pid = nextPageID s /\ nextPageID s' = wrap32 (pid + 1) /\ rootPage s' = rootPage s /\ Coh s' /\
  exists j, pageTable s' !! pid = Some j /\ head (lru s') = Some j /\ 0 <= j < 3 /\
    frame s' j = mkFrame pid true zero_node /\
    (forall k, 0 <= k -> k <> j -> frame s' k = frame s k) /\
    (failbit s = true -> stream s' = stream s).
Proof. exact (alloc_frames s pid s'). Qed.

Lemma allocatePage_frames_witness :
  exists s', allocatePage (tree_of [10; 20; 30; 40; 50]) = Some (3, s') /\ nextPageID s' = 4.
Proof.
  destruct (allocatePage (tree_of [10; 20; 30; 40; 50])) as [[pid s']|] eqn:E;
    [|vm_compute in E; discriminate].
  destruct (allocatePage_frames _ _ _ (gi_coh _ (tree_after_ginv _ _ tree_of_L5)) E)
    as (Hp & Hn & _).
  assert (Hp3 : pid = 3) by (rewrite Hp; vm_compute; reflexivity). subst pid.
  exists s'. split; [reflexivity|]. rewrite Hn. vm_compute. reflexivity.
Defined.

(** X7: the most recently used page stays resident in the same frame, with
    the same frame contents, across a [fetchPage] of another page: the
    frame returned is a different one.  So the pointer of the last fetch
    stays valid while a second page is fetched. *)
Theorem fetch_keeps_mru s pid q j :
  Coh s -> pageTable s !! q = Some j -> head (lru s) = Some j -> q <> pid ->
  exists i s', fetchPage pid s = Some (i, s') /\ i <> j /\
    pageTable s' !! q = Some j /\ frame s' j = frame s j.
Proof.
  intros Hc Hq Hh Hne. destruct (fetch_some pid s) as [[i s'] Ef].
  exists i, s'. split; [exact Ef|].
  pose proof (fetch_keeps _ _ _ _ _ _ Hc Hq Hh Hne Ef) as Hq'.
  destruct (coh_frame_range _ _ _ Hc Hq) as [Hj0 Hj1].
  assert (Hjin : In j (lru s)) by (apply (coh_table _ Hc) in Hq; tauto).
  destruct (pageTable s !! pid) as [idx|] eqn:E.
  - rewrite (fetchPage_hit _ _ _ E) in Ef. injection Ef as <- <-.
    split; [|split; [exact Hq|reflexivity]].
    apply (coh_other_frame s pid q); auto.
  - rewrite (fetchPage_miss _ _ E) in Ef.
    destruct (evict s) as [[idx s1]|] eqn:Ev; [|discriminate].
    injection Ef as <- <-.
    destruct (evict_free s idx s1 Hc Ev) as (Hcf & _ & _ & Hfr).
    assert (Hij : idx <> j).
    { destruct (decide (length (lru s) < 3)%nat) as [Hl|Hl].
      - rewrite evict_notfull in Ev by exact Hl. injection Ev as <- _.
        apply (coh_range _ Hc) in Hjin. lia.
      - rewrite evict_full in Ev by lia. injection Ev as <- _.
        destruct (lru s) as [|j' l] eqn:El; [discriminate|]. injection Hh as ->.
        pose proof (coh_nodup _ Hc) as Hnd. rewrite El in Hnd. inversion Hnd; subst.
        assert (Hl' : l <> []) by (intros ->; simpl in Hl; lia).
        pose proof (last_in_tail j l Hl') as Hin. intros Eq. rewrite Eq in Hin. contradiction. }
    split; [exact Hij|]. split; [exact Hq'|].
    assert (Hidx : 0 <= idx /\ (Z.to_nat idx < length (pool s1))%nat).
    { pose proof (cf_range _ _ Hcf idx) as [Hr _]. specialize (Hr (or_introl eq_refl)).
      pose proof (cf_len _ _ Hcf). pose proof (cf_pool _ _ Hcf). lia. }
    rewrite install_frame by tauto. destruct (decide (j = idx)); [congruence|].
    apply Hfr.
Qed.

Lemma fetch_keeps_mru_witness :
  exists i s', fetchPage 5 (tree_of [10; 20; 30; 40; 50]) = Some (i, s') /\
    pageTable s' !! 1 = Some 1.
Proof.
  destruct (fetch_keeps_mru (tree_of [10; 20; 30; 40; 50]) 5 1 1
              (gi_coh _ (tree_after_ginv _ _ tree_of_L5))
              ltac:(vm_compute; reflexivity) ltac:(vm_compute; reflexivity) ltac:(lia))
    as (i & s' & E & _ & Hq & _).
  exists i, s'. split; [exact E|exact Hq].
Defined.

(** X8: the [BPlusTree] constructor on a fresh buffer manager allocates
    page 0 as the root, an empty leaf with [parentPage = -1] and zero
    fields in a dirty frame; its read of page 0 on the truncated file
    fails the stream, which stays failed with the file empty. *)
Theorem fresh_tree_state :
  exists s, fresh_tree = Some s /\
    rootPage s = 0 /\ nextPageID s = 1 /\ failbit s = true /\ dbFile s = ∅ /\ fileSize s = 0 /\
    lru s = [0] /\ pageTable s = {[0 := 0]} /\ events s = [] /\
    frame s 0 = mkFrame 0 true (mkNode true 0 (-1) [0; 0; 0] [0; 0; 0; 0] 0) /\
    view s 0 = Some (mkNode true 0 (-1) [0; 0; 0] [0; 0; 0; 0] 0).
Proof.
  destruct fresh_tree as [s|] eqn:E; [|vm_compute in E; discriminate].
  exists s. split; [reflexivity|].
  vm_compute in E. injection E as <-.
  repeat split; vm_compute; reflexivity.
Qed.

(** X9: [insertIntoLeaf] on a resident leaf with fewer than [MAX_KEYS]
    keys inserts the key in place by the shifting loop, marks the frame
    dirty, touches it and changes no other frame and not the file; the
    key count grows by one, and the stored keys are the old ones plus the
    new one, in non-decreasing order if they were. *)
Theorem insertIntoLeaf_room s pid key i :
  Coh s -> pageTable s !! pid = Some i -> numKeys (node_at s i) < MAX_KEYS ->
  let n := node_at s i in
  exists s', insertIntoLeaf pid key s = Some (tt, s') /\
    frame s' i = mkFrame pid true (leaf_insert n key) /\
    (forall k, 0 <= k -> k <> i -> frame s' k = frame s k) /\
    pageTable s' = pageTable s /\ lru s' = touch_list i (lru s) /\ stream s' = stream s /\
    (length (keys n) = 3%nat -> 0 <= numKeys n -> Sorted Z.le (node_keys n) ->
       Sorted Z.le (node_keys (leaf_insert n key)) /\
       Permutation (node_keys (leaf_insert n key)) (key :: node_keys n) /\
       numKeys (leaf_insert n key) = numKeys n + 1).
Proof.
  intros Hc Ht Hk n.
  pose proof (fetchPage_hit s pid i Ht) as Ef.
  rewrite (insertIntoLeaf_eq s pid key i _ Hc Ef).
  change (node_at (set_lru (touch_list i (lru s)) s) i) with (node_at s i). fold n.
  replace (numKeys n <? MAX_KEYS) with true by (symmetry; apply Z.ltb_lt; exact Hk).
  eexists. split; [reflexivity|].
  destruct (coh_frame_range _ _ _ Hc Ht) as [H0 H1].
  pose proof (proj1 (coh_table _ Hc _ _) Ht) as [_ Hpid].
  split.
  { rewrite frame_upd_eq by exact H0 || exact H1.
    change (frame (set_lru (touch_list i (lru s)) s) i) with (frame s i).
    unfold set_frame_dirty, set_frame_data. simpl. rewrite Hpid. reflexivity. }
  split; [intros k Hk0 Hki; rewrite frame_upd_ne by lia; reflexivity|].
  split; [reflexivity|]. split; [reflexivity|]. split; [reflexivity|].
  intros Hl Hn0 Hs.
  split; [apply leaf_insert_sorted; auto; lia|].
  split; [apply leaf_insert_perm; auto; lia|].
  apply leaf_insert_fields.
Qed.

Lemma tree_of_L2 : tree_after [10; 20] = Some (tree_of [10; 20]).
Proof. vm_compute. reflexivity. Qed.

Lemma insertIntoLeaf_room_witness :
  exists s', insertIntoLeaf 0 15 (tree_of [10; 20]) = Some (tt, s').
Proof.
  destruct (insertIntoLeaf_room (tree_of [10; 20]) 0 15 0
              (gi_coh _ (tree_after_ginv _ _ tree_of_L2))
              ltac:(vm_compute; reflexivity) ltac:(vm_compute; reflexivity)) as (s' & E & _).
  exists s'. exact E.
Defined.

(** X10: [insertIntoParent left key right] with [left] the current root
    allocates page [nextPageID] as the new root, an internal node with the
    single key and the children [left] and [right] (other fields zero),
    moves the root reference to it, keeps the cache coherent and changes
    no other frame. *)
Theorem insertIntoParent_new_root s left key right :
  Coh s -> left = rootPage s ->
  let np := nextPageID s in
  exists s' r, insertIntoParent left key right s = Some (tt, s') /\
    Coh s' /\ rootPage s' = np /\ nextPageID s' = wrap32 (np + 1) /\
    pageTable s' !! np = Some r /\ head (lru s') = Some r /\ 0 <= r < 3 /\
    frame s' r = mkFrame np true (new_root left key right) /\
    (forall k, 0 <= k -> k <> r -> frame s' k = frame s k) /\
    (failbit s = true -> stream s' = stream s).
Proof.
  intros Hc Hl np.
  destruct (insertIntoParent_root_frames s left key right Hc Hl)
    as (s' & r & E & Hc' & Hr & Hn & Ht & Hh & Hr3 & Hf & Ho & Hs & _).
  exists s', r. auto 12.
Qed.

Lemma insertIntoParent_new_root_witness :
  exists s' r, insertIntoParent 0 30 1 (tree_of [10; 20; 30]) = Some (tt, s') /\
    rootPage s' = 1 /\ pageTable s' !! 1 = Some r.
Proof.
  destruct (insertIntoParent_new_root (tree_of [10; 20; 30]) 0 30 1
              (gi_coh _ (tree_after_ginv _ _ tree_of_L3)) ltac:(vm_compute; reflexivity))
    as (s' & r & E & _ & Hr & _ & Ht & _).
  exists s', r. split; [exact E|]. split; [exact Hr|exact Ht].
Defined.

(** X11: on every tree built by inserts into a fresh tree, the stream is
    failed and the file empty, so a page that is not resident has no
    readable content: the only pages with content are the resident
    ones. *)
Theorem tree_after_no_disk ks s :
  tree_after ks = Some s ->
  failbit s = true /\ dbFile s = ∅ /\ fileSize s = 0 /\ Coh s /\
  (forall p, pageTable s !! p = None -> view s p = None) /\
  (forall p m, view s p = Some m -> exists i, pageTable s !! p = Some i /\ 0 <= i < 3 /\ m = node_at s i).
Proof.
  intros H. pose proof (tree_after_ginv _ _ H) as Hg.
  split; [exact (gi_fail _ Hg)|]. split; [exact (gi_file _ Hg)|].
  split; [exact (gi_size _ Hg)|]. split; [exact (gi_coh _ Hg)|].
  split; [|intros p m; apply ginv_view; exact Hg].
  intros p Hp. unfold view. rewrite Hp. apply disk_image_failed. exact (gi_fail _ Hg).
Qed.

Lemma tree_after_no_disk_witness :
  view (tree_of [10; 20; 30; 40; 50]) 7 = None.
Proof.
  apply (tree_after_no_disk _ _ tree_of_L5). vm_compute. reflexivity.
Defined.

Lemma tree_of_L7 : tree_after [10; 20; 30; 40; 50; 60; 5] = Some (tree_of [10; 20; 30; 40; 50; 60; 5]).
Proof. vm_compute. reflexivity. Qed.
Lemma keys_L7 :
  forallb (fun i => negb (existsb (fun x => (x =? 10) || (x =? 20))
                           (node_keys (node_at (tree_of [10; 20; 30; 40; 50; 60; 5]) i))))
    [0; 1; 2] = true.
Proof. vm_compute. reflexivity. Qed.
Lemma existsb_false_notin (f : Z -> bool) (l : list Z) (x : Z) :
  existsb f l = false -> f x = true -> ~ In x l.
Proof.
  intros Hf Hx Hin.
  assert (existsb f l = true) as Ht by (apply existsb_exists; exists x; auto).
  rewrite Hf in Ht. discriminate.
Qed.
(** X12: keys are lost when a dirty leaf is evicted: after 10, 20, 30, 40,
    50, 60, 5 on a fresh tree, page 0 was evicted and written, yet no
    page with content holds 10 or 20; page 0 holds [5; 30; 40] and page
    1 has no content. *)
Theorem keys_lost_after_eviction :
  exists s, tree_after [10; 20; 30; 40; 50; 60; 5] = Some s /\
    option_map node_keys (view s 0) = Some [5; 30; 40] /\ view s 1 = None /\
    In (EvDiskWrite 0) (events s) /\
    forall p m, view s p = Some m -> ~ In 10 (node_keys m) /\ ~ In 20 (node_keys m).
Proof.
  exists (tree_of [10; 20; 30; 40; 50; 60; 5]). split; [exact tree_of_L7|].
  split; [vm_compute; reflexivity|]. split; [vm_compute; reflexivity|].
  split; [vm_compute; tauto|].
  intros p m Hv.
  destruct (ginv_view _ _ _ (tree_after_ginv _ _ tree_of_L7) Hv) as (i & _ & Hi & Hm).
  subst m. pose proof keys_L7 as Hall. rewrite forallb_forall in Hall.
  assert (Hb : In i [0; 1; 2]) by (simpl; lia).
  specialize (Hall i Hb). apply negb_true_iff in Hall.
  split; apply (existsb_false_notin _ _ _ Hall); reflexivity.
Qed.

(** X13: once the root is the internal page 2 (fewer than 2^30 inserts
    from a fresh tree), [findLeaf] from the root returns leaf 1 for a key
    [>=] the root key and leaf 0 otherwise, and changes neither the file
    nor any frame's bytes. *)
Theorem findLeaf_two_level ks s key :
  Z.of_nat (length ks) < 2 ^ 30 -> tree_after ks = Some s -> rootPage s = 2 ->
  exists k s2, view s 2 = Some (root_node k) /\
    findLeaf findLeaf_fuel (rootPage s) key s = Some (if key >=? k then 1 else 0, s2) /\
    stream s2 = stream s /\ (forall q, 0 <= q -> node_at s2 q = node_at s q).
Proof.
  intros Hb Ht Hr. pose proof (tree_after_rinv _ _ Hb Ht) as Hri.
  destruct (ri_shape _ Hri) as [(Hr0 & _)|(_ & _ & r & k & Hpt & Hroot & Hleaf)]; [congruence|].
  destruct (findLeaf_root2 62 s key r k (ri_g _ Hri) Hpt Hroot Hleaf)
    as (f & s2 & E & _ & Hs & Hn & _).
  exists k, s2. split; [unfold view; rewrite Hpt, Hroot; reflexivity|].
  rewrite Hr. split; [exact E|]. split; [exact Hs|exact Hn].
Qed.

Lemma findLeaf_two_level_witness :
  exists s2, findLeaf findLeaf_fuel 2 35 (tree_of [10; 20; 30; 40; 50]) = Some (1, s2).
Proof.
  destruct (findLeaf_two_level [10; 20; 30; 40; 50] (tree_of [10; 20; 30; 40; 50]) 35
              ltac:(simpl; lia) tree_of_L5 ltac:(vm_compute; reflexivity))
    as (k & s2 & Hv & E & _).
  assert (Hk : k = 30) by (vm_compute in Hv; congruence). subst k.
  exists s2. exact E.
Defined.
